(** * Verification of the GBS and kernel-based-training demonstrations

    A shallow embedding of [demonstrations/tutorial_gbs.py] and
    [demonstrations/tutorial_kernel_based_training.py], followed by the
    properties established about them.

    The scripts are embedded at two levels.
    - Value level (modules [Evals], [Hinge], [Predict], [QuantumKernel]):
      the functions whose results the properties are about, as functions on
      numbers.  Python [int] is [Z].  Floating-point numbers are modelled by
      exact numbers: rationals [Q] where the code only adds, multiplies and
      compares, real numbers [R] where it needs trigonometry.  Rounding,
      infinities and NaN are outside the model.  Library routines are
      modelled from their documented meaning (gates, [relu], [np.ceil]) or
      taken as parameters of a [Section].
    - Effect level (module [Script]): both scripts statement by statement,
      every function they define included, as programs whose every
      interaction with the interpreter and the libraries is logged; the
      libraries are a parameter, so the properties hold whatever they
      answer. *)

From Stdlib Require Import ZArith QArith Qround Qminmax Reals Lra Lia Psatz List String Bool.
From stdpp Require Import gmap strings.
Import ListNotations.

(* ===================================================================== *)
(** * Part I: definitions                                                 *)
(* ===================================================================== *)

(** ** Counting circuit evaluations (kernel tutorial, lines 281-292) *)

Module Evals.
Local Open Scope Z_scope.

(** [np.ceil] followed by [int(...)]: the least integer not below [q]. *)
Definition np_ceil (q : Q) : Z := Qceiling q.

(** The float literal [0.75] is the dyadic rational 3/4, so the product
    [0.75 * n_data] is exact in binary64 as long as [3 * n_data < 2^53]. *)
Definition lit_0_75 : Q := 75 # 100.

(** [circuit_evals_kernel(n_data, split)]; [split] is accepted and never
    read, so the model takes it at an arbitrary type. *)
Definition circuit_evals_kernel {A : Type} (n_data : Z) (split : A) : Z :=
  let M := np_ceil (Qmult lit_0_75 (inject_Z n_data)) in
  let Mpred := n_data - M in
  let n_training := M * M in
  let n_prediction := M * Mpred in
  n_training + n_prediction.

(** The ceiling of three quarters of [n], written with integer division. *)
Definition ceil_three_quarters (n : Z) : Z := (3 * n + 3) / 4.

(** [circuit_evals_variational(n_data, n_params, n_steps,
    evals_per_derivative, split, batch_size)] (kernel tutorial, lines
    459-470); [split] is accepted and never read. *)
Definition circuit_evals_variational {A : Type}
  (n_data n_params n_steps evals_per_derivative : Z) (split : A) (batch_size : Z) : Z :=
  let M := np_ceil (Qmult lit_0_75 (inject_Z n_data)) in
  let Mpred := n_data - M in
  let n_training := n_params * n_steps * batch_size * evals_per_derivative in
  let n_prediction := Mpred in
  n_training + n_prediction.

(** [model_evals_nn(n_data, n_params, n_steps, split, batch_size)] (kernel
    tutorial, lines 489-500); neither [n_params] nor [split] is read. *)
Definition model_evals_nn {A B : Type}
  (n_data : Z) (n_params : B) (n_steps : Z) (split : A) (batch_size : Z) : Z :=
  let M := np_ceil (Qmult lit_0_75 (inject_Z n_data)) in
  let Mpred := n_data - M in
  let n_training := n_steps * batch_size in
  let n_prediction := Mpred in
  n_training + n_prediction.

End Evals.

(** ** Tensors and the hinge loss (kernel tutorial, lines 341-350) *)

Module Hinge.
Local Open Scope Q_scope.

(** A torch tensor: its shape and its entries in row-major order. *)
Record tensor : Type := mk_tensor { shape : list nat; data : list Q }.

(** Combining two lists entry by entry. *)
Fixpoint map2 (f : Q -> Q -> Q) (xs ys : list Q) : list Q :=
  match xs, ys with
  | x :: xs', y :: ys' => f x y :: map2 f xs' ys'
  | _, _ => []
  end.

(** [torch.ones_like]. *)
Definition ones_like (t : tensor) : tensor :=
  mk_tensor (shape t) (map (fun _ => 1) (data t)).

(** An entrywise binary operation on tensors of the same shape.  For shapes
    that differ torch either broadcasts or raises; neither is modelled, and
    the operation answers [None]. *)
Definition elementwise (f : Q -> Q -> Q) (a b : tensor) : option tensor :=
  if decide (shape a = shape b)
  then Some (mk_tensor (shape a) (map2 f (data a) (data b)))
  else None.

Definition tensor_mul : tensor -> tensor -> option tensor := elementwise Qmult.
Definition tensor_sub : tensor -> tensor -> option tensor := elementwise Qminus.

(** Strict comparison of rationals as a boolean. *)
Definition Qlt_bool (a b : Q) : bool := negb (Qle_bool b a).

(** [torch.nn.functional.relu] on one entry, in threshold form: the entry
    is kept when it is strictly positive and replaced by zero otherwise. *)
Definition relu_entry (x : Q) : Q := if Qlt_bool 0 x then x else 0.

Definition relu (t : tensor) : tensor :=
  mk_tensor (shape t) (map relu_entry (data t)).

(** [hinge_loss(predictions, targets)]. *)
Definition hinge_loss (predictions targets : tensor) : option tensor :=
  let all_ones := ones_like targets in
  match tensor_mul predictions targets with
  | None => None
  | Some prod =>
      match tensor_sub all_ones prod with
      | None => None
      | Some hinge_loss => Some (relu hinge_loss)
      end
  end.

(** The formulation the source comment refers to: the entrywise maximum of
    [0] and [1 - predictions * targets]. *)
Definition hinge_loss_max (predictions targets : tensor) : option tensor :=
  elementwise (fun p t => Qmax 0 (1 - p * t)) predictions targets.

End Hinge.

(** ** Prediction with the variational model (kernel tutorial, lines 334-419) *)

Module Predict.

Section Model.

(** A data sample, the trained parameters, and the two library calls the
    loop makes: the conversion [torch.tensor(x)] and the QNode
    [quantum_model], whose value is read back with
    [.detach().numpy().item()]. *)
Variables sample torch_sample params : Type.
Variable torch_tensor : sample -> torch_sample.
Variable quantum_model : torch_sample -> params -> Q.

(** [quantum_model_plus_bias(x, params, bias)]. *)
Definition quantum_model_plus_bias (x : torch_sample) (p : params) (bias : Q) : Q :=
  Qplus (quantum_model x p) bias.

(** One turn of the [for x in X_pred] loop, acting on the list [p]. *)
Definition predict_step (trained_params : params) (trained_bias : Q)
  (p : list Z) (x : sample) : list Z :=
  let x_torch := torch_tensor x in
  let pred_torch := quantum_model_plus_bias x_torch trained_params trained_bias in
  let pred := pred_torch in
  let pred := if Hinge.Qlt_bool 0 pred then 1%Z else (-1)%Z in
  p ++ [pred].

(** [quantum_model_predict(X_pred, trained_params, trained_bias)]. *)
Definition quantum_model_predict (X_pred : list sample)
  (trained_params : params) (trained_bias : Q) : list Z :=
  fold_left (predict_step trained_params trained_bias) X_pred [].

End Model.

Arguments quantum_model_plus_bias {torch_sample params} quantum_model x p bias.
Arguments predict_step {sample torch_sample params} torch_tensor quantum_model
  trained_params trained_bias p x.
Arguments quantum_model_predict {sample torch_sample params} torch_tensor quantum_model
  X_pred trained_params trained_bias.

End Predict.

(** ** The quantum kernel (kernel tutorial, lines 204-215) *)

Module QuantumKernel.
Local Open Scope R_scope.

(** Complex numbers as pairs (real part, imaginary part). *)
Definition C : Type := (R * R)%type.
Definition C0 : C := (0, 0).
Definition C1 : C := (1, 0).
Definition Cadd (a b : C) : C := (fst a + fst b, snd a + snd b).
Definition Cmul (a b : C) : C :=
  (fst a * fst b - snd a * snd b, fst a * snd b + snd a * fst b).
Definition Cconj (a : C) : C := (fst a, - snd a).
Definition Cre (a : C) : R := fst a.

(** A single-qubit gate: a 2x2 complex matrix, [gij] in row [i], column [j]. *)
Record gate : Type := mk_gate { g00 : C; g01 : C; g10 : C; g11 : C }.

(** [m.conj().T] *)
Definition conj_transpose (g : gate) : gate :=
  mk_gate (Cconj (g00 g)) (Cconj (g10 g)) (Cconj (g01 g)) (Cconj (g11 g)).

(** Product of two gates and the identity gate. *)
Definition gate_mul (h g : gate) : gate :=
  mk_gate (Cadd (Cmul (g00 h) (g00 g)) (Cmul (g01 h) (g10 g)))
          (Cadd (Cmul (g00 h) (g01 g)) (Cmul (g01 h) (g11 g)))
          (Cadd (Cmul (g10 h) (g00 g)) (Cmul (g11 h) (g10 g)))
          (Cadd (Cmul (g10 h) (g01 g)) (Cmul (g11 h) (g11 g))).

Definition gate_id : gate := mk_gate C1 C0 C0 C1.

(** PennyLane's [RX(phi)]: rows [(c, -i s)] and [(-i s, c)] with
    [c = cos(phi/2)] and [s = sin(phi/2)]. *)
Definition RX_matrix (phi : R) : gate :=
  let c := (cos (phi / 2), 0) in
  let js := (0, - sin (phi / 2)) in
  mk_gate c js js c.

(** PennyLane's [PauliZ]: [diag(1, -1)]. *)
Definition PauliZ_matrix : gate := mk_gate C1 C0 C0 (-1, 0).

(** The state of [n] wires, an array of shape [[2] * n] as in
    [default.qubit]: the two components of a state of [S m] wires are the
    slices where wire 0 reads 0 and where it reads 1. *)
Fixpoint state (n : nat) : Type :=
  match n with
  | O => C
  | S m => (state m * state m)%type
  end.

Fixpoint vzero (n : nat) : state n :=
  match n with
  | O => C0
  | S m => (vzero m, vzero m)
  end.

Fixpoint vadd (n : nat) : state n -> state n -> state n :=
  match n return state n -> state n -> state n with
  | O => Cadd
  | S m => fun u v => (vadd m (fst u) (fst v), vadd m (snd u) (snd v))
  end.

Fixpoint vscale (n : nat) (c : C) : state n -> state n :=
  match n return state n -> state n with
  | O => Cmul c
  | S m => fun u => (vscale m c (fst u), vscale m c (snd u))
  end.

(** The inner product, conjugate-linear in its first argument. *)
Fixpoint inner (n : nat) : state n -> state n -> C :=
  match n return state n -> state n -> C with
  | O => fun u v => Cmul (Cconj u) v
  | S m => fun u v => Cadd (inner m (fst u) (fst v)) (inner m (snd u) (snd v))
  end.

(** The state a device starts in: every wire reads 0. *)
Fixpoint basis_zero (n : nat) : state n :=
  match n with
  | O => C1
  | S m => (basis_zero m, vzero m)
  end.

(** A gate acting on wire [w] of an [n]-wire state.  The wires used below
    are always in range; on a wire that does not exist (where PennyLane
    raises a [WireError]) the model leaves the state as it is. *)
Fixpoint apply_gate (g : gate) (w : nat) (n : nat) {struct n} : state n -> state n :=
  match n return state n -> state n with
  | O => fun s => s
  | S m => fun s =>
      match w with
      | O => (vadd m (vscale m (g00 g) (fst s)) (vscale m (g01 g) (snd s)),
              vadd m (vscale m (g10 g) (fst s)) (vscale m (g11 g) (snd s)))
      | S w' => (apply_gate g w' m (fst s), apply_gate g w' m (snd s))
      end
  end.

(** The operations the tutorial queues. *)
Inductive op_name : Type :=
| RX (phi : R)
| PauliZ.

(** A queued operation: what it is, the wire it acts on, and PennyLane's
    [inverse] flag. *)
Record operation : Type := mk_op { name : op_name; wire : nat; inverse : bool }.

Definition base_matrix (o : op_name) : gate :=
  match o with
  | RX phi => RX_matrix phi
  | PauliZ => PauliZ_matrix
  end.

(** [Operation.matrix]: the conjugate transpose when the flag is set. *)
Definition matrix (o : operation) : gate :=
  if inverse o then conj_transpose (base_matrix (name o)) else base_matrix (name o).

(** [Operation.inv()] toggles the flag. *)
Definition op_inv (o : operation) : operation :=
  mk_op (name o) (wire o) (negb (inverse o)).

(** [qml.inv(operation_list)]: every operation inverted, in reversed order. *)
Definition inv (ops : list operation) : list operation := map op_inv (rev ops).

(** Running a queue of operations, first queued first applied. *)
Definition execute (n : nat) (ops : list operation) (s : state n) : state n :=
  fold_left (fun s o => apply_gate (matrix o) (wire o) n s) ops s.

(** One [RX] rotation per feature, on the wire of the same position. *)
Fixpoint zip_rx (features : list R) (wires : list nat) : list operation :=
  match features, wires with
  | f :: fs, w :: ws => mk_op (RX f) w false :: zip_rx fs ws
  | _, _ => []
  end.

(** [AngleEmbedding(features, wires)] with the default [rotation="X"]; it
    rejects more features than wires ([None]). *)
Definition AngleEmbedding (features : list R) (wires : list nat)
  : option (list operation) :=
  if (length features <=? length wires)%nat
  then Some (zip_rx features wires)
  else None.

(** [qml.expval] of the [Tensor] of the listed observables in state [s]: the real number
    [<s| O |s>], where [O] is the product of the listed observables. *)
Definition expval (n : nat) (observable : list operation) (s : state n) : R :=
  Cre (inner n s (execute n observable s)).

Section Kernel.

(** [n_qubits = len(X_train[0])], the number of features of a sample. *)
Variable n_qubits : nat.

(** [observables = [qml.PauliZ(i) for i in range(n_qubits)]]. *)
Definition observables : list operation :=
  map (fun i => mk_op PauliZ i false) (seq 0 n_qubits).

(** The QNode [kernel(x1, x2)] on [dev_kernel]: the operations queued by the
    body run on the all-zeros state of [n_qubits] wires, and the value is
    the expectation of the [Tensor] of [observables].  [None] stands for the
    [ValueError] of [AngleEmbedding]. *)
Definition kernel (x1 x2 : list R) : option R :=
  match AngleEmbedding x1 (seq 0 n_qubits) with
  | None => None
  | Some e1 =>
      match AngleEmbedding x2 (seq 0 n_qubits) with
      | None => None
      | Some e2 =>
          Some (expval n_qubits observables
                  (execute n_qubits (e1 ++ inv e2) (basis_zero n_qubits)))
      end
  end.

End Kernel.

(** *** Product states, for the closed form of the kernel *)

(** The state of one wire: the amplitudes of 0 and of 1. *)
Definition qubit : Type := (C * C)%type.

Definition ket0 : qubit := (C1, C0).

(** A gate acting on the state of one wire. *)
Definition gate_apply (g : gate) (q : qubit) : qubit :=
  (Cadd (Cmul (g00 g) (fst q)) (Cmul (g01 g) (snd q)),
   Cadd (Cmul (g10 g) (fst q)) (Cmul (g11 g) (snd q))).

(** The state of [n] wires in which wire [i] is in state [q i], the wires
    being independent of each other. *)
Fixpoint product_state (n : nat) (q : nat -> qubit) : state n :=
  match n with
  | O => C1
  | S m =>
      let rest := product_state m (fun i => q (S i)) in
      (vscale m (fst (q O)) rest, vscale m (snd (q O)) rest)
  end.

(** Changing the state of wire [w] only. *)
Definition on_wire (w : nat) (f : qubit -> qubit) (q : nat -> qubit) : nat -> qubit :=
  fun i => if Nat.eqb i w then f (q i) else q i.

(** Running a queue of single-wire operations wire by wire. *)
Definition execute_qubits (ops : list operation) (q : nat -> qubit) : nat -> qubit :=
  fold_left (fun q o => on_wire (wire o) (gate_apply (matrix o)) q) ops q.

(** The products [f 0 * ... * f (n-1)] of real and of complex numbers. *)
Fixpoint Rprod (n : nat) (f : nat -> R) : R :=
  match n with
  | O => 1
  | S m => f O * Rprod m (fun i => f (S i))
  end.

Fixpoint Cprod (n : nat) (f : nat -> C) : C :=
  match n with
  | O => C1
  | S m => Cmul (f O) (Cprod m (fun i => f (S i)))
  end.

(** The inner product of two one-wire states. *)
Definition qinner (p q : qubit) : C :=
  Cadd (Cmul (Cconj (fst p)) (fst q)) (Cmul (Cconj (snd p)) (snd q)).

(** *** The kernel matrix (kernel tutorial, lines 233-239) *)

(** A list comprehension whose element expression may raise: the first
    failure ends it. *)
Fixpoint all_some {T : Type} (l : list (option T)) : option (list T) :=
  match l with
  | [] => Some []
  | None :: _ => None
  | Some x :: l' =>
      match all_some l' with
      | Some xs => Some (x :: xs)
      | None => None
      end
  end.

(** [kernel_matrix(A, B)]: [np.array([[kernel(a, b) for b in B] for a in
    A])], the array as the list of its rows. *)
Definition kernel_matrix (n_qubits : nat) (A B : list (list R))
  : option (list (list R)) :=
  all_some (map (fun a => all_some (map (fun b => kernel n_qubits a b) B)) A).

(** The entry in row [i] and column [j], when there is one. *)
Definition entry (K : list (list R)) (i j : nat) : option R :=
  match nth_error K i with
  | Some row => nth_error row j
  | None => None
  end.

End QuantumKernel.

(** ** The two scripts as programs over the interpreter and the libraries

    For the claims about what the scripts do besides computing values, in
    which order they act, which exceptions reach the caller, which global
    names they bind, the scripts are embedded statement by statement.
    Every operation that Python delegates to the interpreter or to a
    library (a call, an operator, an attribute, an iteration, a truth test,
    an unpacking) is one [perform] step: its result comes from a [library],
    which is a parameter, and the step is recorded in a log with its source
    line.  Module-level names live in [globals]; the locals of a function
    are Rocq binders.  Imported module names ([np], [qml], [plt], [haf])
    are taken as resolved. *)

Module Script.
Local Open Scope string_scope.

(** Python values as far as the scripts build them as literals; everything
    a library returns may also be an opaque object [VObj]. *)

#[local] Unset Elimination Schemes.
Inductive value : Type :=
| VNone
| VBool (b : bool)
| VInt (z : Z)
| VFloat (q : Q)
| VStr (s : string)
| VSlice
| VTuple (vs : list value)
| VList (vs : list value)
| VKw (k : string) (v : value)
| VFun (name : string)
| VObj (id : N).
#[local] Set Elimination Schemes.

(** The outcome of a step: a value or a raised exception. *)
Inductive result (E A : Type) : Type :=
| Ok (a : A)
| Raise (e : E).
Arguments Ok {E A} a.
Arguments Raise {E A} e.

Definition outcome {E A : Type} (r : result E A) : option E :=
  match r with
  | Ok _ => None
  | Raise e => Some e
  end.

(** The interpreter and the libraries: their exceptions, their hidden
    state, and what each kind of operation answers in a given state. *)
Class library : Type := {
  exn : Type;
  libstate : Type;
  lib_call : string -> list value -> libstate -> result exn value * libstate;
  lib_iter : value -> libstate -> result exn (list value) * libstate;
  lib_truth : value -> libstate -> result exn bool * libstate;
  lib_unpack2 : value -> libstate -> result exn (value * value) * libstate;
  lib_unpack4 : value -> libstate ->
                result exn (value * value * value * value) * libstate;
  name_error : string -> exn
}.

Section Monad.
Context {L : library}.

(** A logged operation: its source line, its name, its arguments and the
    exception it raised, if any. *)
Record event : Type := mk_event {
  ev_line : nat;
  ev_name : string;
  ev_args : list value;
  ev_raised : option exn
}.

(** The state a script runs in. *)
Record world : Type := mk_world {
  globals : gmap string value;
  lib_state : libstate;
  log : list event
}.

(** A piece of script producing an [A]. *)
Definition cmd (A : Type) : Type := world -> result exn A * world.

Definition ret {A : Type} (a : A) : cmd A := fun w => (Ok a, w).

(** Sequencing: an exception ends the run; there is no handler. *)
Definition bind {A B : Type} (m : cmd A) (f : A -> cmd B) : cmd B :=
  fun w =>
    match m w with
    | (Ok a, w') => f a w'
    | (Raise e, w') => (Raise e, w')
    end.

(** One delegated operation, logged. *)
Definition perform {T : Type} (line : nat) (name : string) (args : list value)
  (h : libstate -> result exn T * libstate) : cmd T :=
  fun w =>
    let '(r, s) := h (lib_state w) in
    (r, mk_world (globals w) s
          (log w ++ [mk_event line name args (outcome r)])).

(** A call, an iteration to exhaustion, a truth test, and the unpacking
    of two or of four values. *)
Definition call (line : nat) (name : string) (args : list value) : cmd value :=
  perform line name args (lib_call name args).

Definition iterate (line : nat) (v : value) : cmd (list value) :=
  perform line "iter" [v] (lib_iter v).

Definition truth (line : nat) (v : value) : cmd bool :=
  perform line "bool" [v] (lib_truth v).

Definition unpack2 (line : nat) (v : value) : cmd (value * value) :=
  perform line "unpack" [v] (lib_unpack2 v).

Definition unpack4 (line : nat) (v : value) : cmd (value * value * value * value) :=
  perform line "unpack" [v] (lib_unpack4 v).

(** Reading a module-level name; an unbound name raises [NameError]. *)
Definition get_global (line : nat) (x : string) : cmd value :=
  fun w =>
    match globals w !! x with
    | Some v => (Ok v, w)
    | None =>
        (Raise (name_error x),
         mk_world (globals w) (lib_state w)
           (log w ++ [mk_event line "NameError" [VStr x] (Some (name_error x))]))
    end.

(** Binding a module-level name. *)
Definition set_global (x : string) (v : value) : cmd unit :=
  fun w => (Ok tt, mk_world (<[x := v]> (globals w)) (lib_state w) (log w)).

(** [for x in xs: body], a comprehension, and a loop that carries a local. *)
Fixpoint for_each {A : Type} (xs : list A) (body : A -> cmd unit) : cmd unit :=
  match xs with
  | [] => ret tt
  | x :: xs' => bind (body x) (fun _ => for_each xs' body)
  end.

Fixpoint mapM {A B : Type} (f : A -> cmd B) (xs : list A) : cmd (list B) :=
  match xs with
  | [] => ret []
  | x :: xs' => bind (f x) (fun y => bind (mapM f xs') (fun ys => ret (y :: ys)))
  end.

Fixpoint foldM {A B : Type} (f : B -> A -> cmd B) (xs : list A) (acc : B) : cmd B :=
  match xs with
  | [] => ret acc
  | x :: xs' => bind (f acc x) (fun acc' => foldM f xs' acc')
  end.

End Monad.

Declare Scope script_scope.
Delimit Scope script_scope with script.
Notation "x <- m ;; k" := (bind m (fun x => k))
  (at level 100, m at next level, right associativity) : script_scope.
Notation "m ;;; k" := (bind m (fun _ => k))
  (at level 100, right associativity) : script_scope.


(** *** The GBS tutorial *)

Module Gbs.
Local Open Scope string_scope.
Local Open Scope script_scope.

Section Program.
Context {L : library}.

(** Keyword argument [wires=...]. *)
Definition wires (v : value) : value := VKw "wires" v.

(** The body of [gbs_circuit] (lines 214-221). *)
Definition gbs_circuit_body : cmd value :=
  n_wires <- get_global 216 "n_wires" ;;
  r <- call 216 "range" [n_wires] ;;
  idx <- iterate 216 r ;;
  for_each idx (fun i =>
    call 217 "qml.Squeezing" [VFloat 1; VFloat 0; wires i] ;;; ret tt) ;;;
  U <- get_global 220 "U" ;;
  n_wires <- get_global 220 "n_wires" ;;
  r <- call 220 "range" [n_wires] ;;
  call 220 "qml.Interferometer" [U; wires r] ;;;
  n_wires <- get_global 221 "n_wires" ;;
  r <- call 221 "range" [n_wires] ;;
  call 221 "qml.probs" [wires r].

(** Calling the QNode [gbs_circuit]: the body queues its operations, then
    the device runs them. *)
Definition gbs_circuit (line : nat) : cmd value :=
  qnode <- get_global line "gbs_circuit" ;;
  m <- gbs_circuit_body ;;
  call 213 "QNode.execute" [qnode; m].

(** [(np.dot(U, U.T) * np.tanh(1))] on source line [line]. *)
Definition B_matrix (line : nat) : cmd value :=
  U <- get_global line "U" ;;
  U' <- get_global line "U" ;;
  UT <- call line ".T" [U'] ;;
  d <- call line "np.dot" [U; UT] ;;
  t <- call line "np.tanh" [VInt 1] ;;
  call line "*" [d; t].

(** [m[:, cols][rows]] *)
Definition submatrix (line : nat) (m : value) (cols rows : list Z) : cmd value :=
  c <- call line "[]" [m; VTuple [VSlice; VList (map VInt cols)]] ;;
  call line "[]" [c; VList (map VInt rows)].

(** [np.abs(haf(B)) ** 2 / denominator] with [B] read from the globals. *)
Definition abs_haf_squared (line : nat) : cmd value :=
  B <- get_global line "B" ;;
  h <- call line "haf" [B] ;;
  a <- call line "np.abs" [h] ;;
  call line "**" [a; VInt 2].

(** [np.cosh(1) ** 4] *)
Definition cosh_4 (line : nat) : cmd value :=
  c <- call line "np.cosh" [VInt 1] ;;
  call line "**" [c; VInt 4].

(** [print(probs[n1, n2, n3, n4])] *)
Definition print_prob (line : nat) (ns : list Z) : cmd unit :=
  probs <- get_global line "probs" ;;
  p <- call line "[]" [probs; VTuple (map VInt ns)] ;;
  call line "print" [p] ;;; ret tt.

Definition measure_states_literal : value :=
  VList (map (fun t => VTuple (map VInt t))
           [[0; 0; 0; 0]; [1; 1; 0; 0]; [0; 1; 0; 1]; [1; 1; 1; 1]; [2; 0; 0; 0]]%Z).

(** Lines 183-213: from the imports to the definition of the QNode. *)
Definition gbs_setup : cmd unit :=
  call 183 "import" [VStr "numpy"] ;;;
  call 186 "np.random.seed" [VInt 42] ;;;
  call 189 "import" [VStr "pennylane"] ;;;
  call 195 "import" [VStr "scipy.stats"] ;;;
  U <- call 198 "unitary_group.rvs" [VInt 4] ;;
  set_global "U" U ;;;
  U <- get_global 199 "U" ;;
  call 199 "print" [U] ;;;
  set_global "n_wires" (VInt 4) ;;;
  set_global "cutoff" (VInt 10) ;;;
  n_wires <- get_global 211 "n_wires" ;;
  cutoff <- get_global 211 "cutoff" ;;
  dev <- call 211 "qml.device"
           [VStr "strawberryfields.gaussian"; wires n_wires; VKw "cutoff_dim" cutoff] ;;
  set_global "dev" dev ;;;
  dev <- get_global 213 "dev" ;;
  qnode <- call 213 "qml.qnode" [dev; VFun "gbs_circuit"] ;;
  set_global "gbs_circuit" qnode.

(** Line 245: the value assigned to [probs]. *)
Definition probs_value : cmd value :=
  r <- gbs_circuit 245 ;;
  cutoff <- get_global 245 "cutoff" ;;
  n_wires <- get_global 245 "n_wires" ;;
  shape <- call 245 "*" [VList [cutoff]; n_wires] ;;
  call 245 ".reshape" [r; shape].

(** Lines 183-245: up to and including the assignment of [probs]. *)
Definition gbs_head : cmd unit :=
  gbs_setup ;;;
  probs <- probs_value ;;
  set_global "probs" probs.

(** Lines 246-364: everything after the assignment of [probs]. *)
Definition gbs_tail : cmd unit :=
  probs <- get_global 246 "probs" ;;
  s <- call 246 ".shape" [probs] ;;
  call 246 "print" [s] ;;;
  set_global "measure_states" measure_states_literal ;;;
  measure_states <- get_global 262 "measure_states" ;;
  states <- iterate 262 measure_states ;;
  for_each states (fun i =>
    set_global "i" i ;;;
    i' <- get_global 263 "i" ;;
    js <- iterate 263 i' ;;
    strs <- mapM (fun j => call 263 "str" [j]) js ;;
    joined <- call 263 "join" [VStr ""; VList strs] ;;
    probs <- get_global 263 "probs" ;;
    i'' <- get_global 263 "i" ;;
    p <- call 263 "[]" [probs; i''] ;;
    text <- call 263 "format" [VStr "|{}>: {}"; joined; p] ;;
    call 263 "print" [text] ;;; ret tt) ;;;
  call 304 "import" [VStr "thewalrus"] ;;;
  B <- B_matrix 310 ;;
  set_global "B" B ;;;
  B <- get_global 317 "B" ;;
  b <- submatrix 317 B [0; 1]%Z [0; 1]%Z ;;
  call 317 "print" [b] ;;;
  c <- cosh_4 330 ;;
  q <- call 330 "/" [VInt 1; c] ;;
  call 330 "print" [q] ;;;
  print_prob 331 [0; 0; 0; 0]%Z ;;;
  m <- B_matrix 336 ;;
  B <- submatrix 336 m [0; 1]%Z [0; 1]%Z ;;
  set_global "B" B ;;;
  a <- abs_haf_squared 337 ;;
  c <- cosh_4 337 ;;
  q <- call 337 "/" [a; c] ;;
  call 337 "print" [q] ;;;
  print_prob 338 [1; 1; 0; 0]%Z ;;;
  m <- B_matrix 343 ;;
  B <- submatrix 343 m [1; 3]%Z [1; 3]%Z ;;
  set_global "B" B ;;;
  a <- abs_haf_squared 344 ;;
  c <- cosh_4 344 ;;
  q <- call 344 "/" [a; c] ;;
  call 344 "print" [q] ;;;
  print_prob 345 [0; 1; 0; 1]%Z ;;;
  B <- B_matrix 352 ;;
  set_global "B" B ;;;
  a <- abs_haf_squared 353 ;;
  c <- cosh_4 353 ;;
  q <- call 353 "/" [a; c] ;;
  call 353 "print" [q] ;;;
  print_prob 354 [1; 1; 1; 1]%Z ;;;
  m <- B_matrix 362 ;;
  B <- submatrix 362 m [0; 0]%Z [0; 0]%Z ;;
  set_global "B" B ;;;
  a <- abs_haf_squared 363 ;;
  c <- cosh_4 363 ;;
  d <- call 363 "*" [VInt 2; c] ;;
  q <- call 363 "/" [a; d] ;;
  call 363 "print" [q] ;;;
  print_prob 364 [2; 0; 0; 0]%Z.

(** The whole script. *)
Definition gbs_script : cmd unit := gbs_head ;;; gbs_tail.

End Program.

(** The operations the script invokes. *)
Definition gbs_api : list string :=
  ["import"; "np.random.seed"; "unitary_group.rvs"; "print"; "qml.device";
   "qml.qnode"; "range"; "iter"; "qml.Squeezing"; "qml.Interferometer";
   "qml.probs"; "QNode.execute"; "*"; ".reshape"; ".shape"; "str"; "join";
   "[]"; "format"; ".T"; "np.dot"; "np.tanh"; "np.cosh"; "**"; "/"; "haf";
   "np.abs"; "NameError"].

(** The source lines that print an entry or the shape of [probs]. *)
Definition probs_print_lines : list nat := [246; 263; 331; 338; 345; 354; 364].

(** What must have completed before an operation: the device is configured
    (line 211) before the QNode is defined (line 213), the QNode is defined
    before it is executed, and it is executed before [probs] is printed. *)
Definition gbs_deps (k : string * nat) : list (string * nat) :=
  if String.eqb (fst k) "qml.qnode" then [("qml.device", 211)]
  else if String.eqb (fst k) "QNode.execute" then [("qml.qnode", 213)]
  else if String.eqb (fst k) "print" && existsb (Nat.eqb (snd k)) probs_print_lines
       then [("QNode.execute", 213)]
  else [].

(** The globals bound by lines 183-245 and those bound afterwards. *)
Definition gbs_head_globals : list string :=
  ["U"; "n_wires"; "cutoff"; "dev"; "gbs_circuit"; "probs"].
Definition gbs_tail_globals : list string := ["measure_states"; "i"; "B"].

(** The globals that are bound when the script has ended normally: all of
    the above but [i], which stays unbound when the loop of line 262 has
    nothing to iterate over. *)
Definition gbs_bound_names : list string :=
  ["U"; "n_wires"; "cutoff"; "dev"; "gbs_circuit"; "probs"; "measure_states"; "B"].

End Gbs.

(** *** The kernel-based training tutorial *)

Module KernelTraining.
Local Open Scope string_scope.
Local Open Scope script_scope.

Section Program.
Context {L : library}.

Definition wires (v : value) : value := VKw "wires" v.

(** [range(n_qubits)] on source line [line]. *)
Definition range_n_qubits (line : nat) : cmd value :=
  n_qubits <- get_global line "n_qubits" ;;
  call line "range" [n_qubits].

(** The body of [kernel] (lines 213-215). *)
Definition kernel_body (x1 x2 : value) : cmd value :=
  r <- range_n_qubits 213 ;;
  call 213 "AngleEmbedding" [x1; wires r] ;;;
  r <- range_n_qubits 214 ;;
  e <- call 214 "AngleEmbedding" [x2; wires r] ;;
  call 214 "qml.inv" [e] ;;;
  observables <- get_global 215 "observables" ;;
  obs <- iterate 215 observables ;;
  t <- call 215 "Tensor" obs ;;
  call 215 "qml.expval" [t].

(** Calling the QNode [kernel]. *)
Definition kernel (qnode x1 x2 : value) : cmd value :=
  m <- kernel_body x1 x2 ;;
  call 208 "QNode.execute" [qnode; m].

(** [kernel_matrix(A, B)] (line 239). *)
Definition kernel_matrix (A B : value) : cmd value :=
  rows <- iterate 239 A ;;
  K <- mapM (fun a =>
         cols <- iterate 239 B ;;
         row <- mapM (fun b =>
                  qnode <- get_global 239 "kernel" ;;
                  kernel qnode a b) cols ;;
         ret (VList row)) rows ;;
  call 239 "np.array" [VList K].

(** [int(np.ceil(0.75 * n_data))] on source line [line]. *)
Definition ceil_three_quarters (line : nat) (n_data : value) : cmd value :=
  t <- call line "*" [VFloat (75 # 100); n_data] ;;
  c <- call line "np.ceil" [t] ;;
  call line "int" [c].

(** [circuit_evals_kernel(n_data, split)] (lines 286-292). *)
Definition circuit_evals_kernel (n_data split : value) : cmd value :=
  M <- ceil_three_quarters 286 n_data ;;
  Mpred <- call 287 "-" [n_data; M] ;;
  n_training <- call 289 "*" [M; M] ;;
  n_prediction <- call 290 "*" [M; Mpred] ;;
  call 292 "+" [n_training; n_prediction].

(** The body of [quantum_model] (lines 327-331). *)
Definition quantum_model_body (x params : value) : cmd value :=
  r <- range_n_qubits 327 ;;
  call 327 "AngleEmbedding" [x; wires r] ;;;
  r <- range_n_qubits 330 ;;
  call 330 "StronglyEntanglingLayers" [params; wires r] ;;;
  z <- call 331 "qml.PauliZ" [VInt 0] ;;
  call 331 "qml.expval" [z].

(** Calling the QNode [quantum_model]. *)
Definition quantum_model (qnode x params : value) : cmd value :=
  m <- quantum_model_body x params ;;
  call 321 "QNode.execute" [qnode; m].

(** [quantum_model_plus_bias(x, params, bias)] (line 338). *)
Definition quantum_model_plus_bias (x params bias : value) : cmd value :=
  qnode <- get_global 338 "quantum_model" ;;
  q <- quantum_model qnode x params ;;
  call 338 "+" [q; bias].

(** [hinge_loss(predictions, targets)] (lines 345-350). *)
Definition hinge_loss (predictions targets : value) : cmd value :=
  all_ones <- call 345 "torch.ones_like" [targets] ;;
  prod <- call 346 "*" [predictions; targets] ;;
  hinge_loss <- call 346 "-" [all_ones; prod] ;;
  call 349 "relu" [hinge_loss].

(** [.detach().numpy().item()] on source line [line]. *)
Definition to_python_float (line : nat) (t : value) : cmd value :=
  d <- call line ".detach" [t] ;;
  n <- call line ".numpy" [d] ;;
  call line ".item" [n].

(** The function [closure] of [quantum_model_train] (lines 383-396), with
    the variables it closes over as arguments; it returns the loss and the
    list [loss_history] after the append. *)
Definition closure (opt params_torch bias_torch X_batch_torch y_batch_torch i : value)
  (loss_history : list value) : cmd (value * list value) :=
  call 383 ".zero_grad" [opt] ;;;
  xs <- iterate 385 X_batch_torch ;;
  ps <- mapM (fun x =>
          f <- get_global 385 "quantum_model_plus_bias" ;;
          quantum_model_plus_bias x params_torch bias_torch) xs ;;
  preds <- call 384 "torch.stack" [VList ps] ;;
  f <- get_global 387 "hinge_loss" ;;
  h <- hinge_loss preds y_batch_torch ;;
  loss <- call 387 "torch.mean" [h] ;;
  current_loss <- to_python_float 390 loss ;;
  let loss_history := (loss_history ++ [current_loss])%list in
  m <- call 392 "%" [i; VInt 10] ;;
  c <- call 392 "==" [m; VInt 0] ;;
  b <- truth 392 c ;;
  (if b : bool
   then call 393 "print" [VStr "step"; i; VStr ", loss"; current_loss] ;;; ret tt
   else ret tt) ;;;
  call 395 ".backward" [loss] ;;;
  ret (loss, loss_history).

(** [quantum_model_train(n_layers, steps, batch_size)] (lines 365-400).
    [opt.step(closure)] evaluates the closure once and then updates the
    parameters. *)
Definition quantum_model_train (n_layers steps batch_size : value)
  : cmd (value * value * list value) :=
  n_qubits <- get_global 365 "n_qubits" ;;
  params <- call 365 "np.random.random" [VTuple [VInt 2; n_qubits; VInt 3]] ;;
  params_torch <- call 366 "torch.tensor" [params; VKw "requires_grad" (VBool true)] ;;
  bias_torch <- call 367 "torch.tensor" [VFloat 0] ;;
  opt <- call 369 "torch.optim.Adam"
           [VList [params_torch; bias_torch]; VKw "lr" (VFloat (1 # 10))] ;;
  r <- call 372 "range" [steps] ;;
  idx <- iterate 372 r ;;
  loss_history <- foldM (fun loss_history i =>
      X_train <- get_global 374 "X_train" ;;
      n <- call 374 "len" [X_train] ;;
      batch_ids <- call 374 "np.random.choice" [n; batch_size] ;;
      X_train <- get_global 376 "X_train" ;;
      X_batch <- call 376 "[]" [X_train; batch_ids] ;;
      y_train <- get_global 377 "y_train" ;;
      y_batch <- call 377 "[]" [y_train; batch_ids] ;;
      X_batch_torch <- call 379 "torch.tensor" [X_batch; VKw "requires_grad" (VBool false)] ;;
      y_batch_torch <- call 380 "torch.tensor" [y_batch; VKw "requires_grad" (VBool false)] ;;
      cl <- closure opt params_torch bias_torch X_batch_torch y_batch_torch i loss_history ;;
      call 398 ".step" [opt; fst cl] ;;;
      ret (snd cl)) idx [] ;;
  ret (params_torch, bias_torch, loss_history).

(** [quantum_model_predict(X_pred, trained_params, trained_bias)]
    (lines 407-419); the result is the list [p]. *)
Definition quantum_model_predict (X_pred trained_params trained_bias : value)
  : cmd (list value) :=
  xs <- iterate 408 X_pred ;;
  foldM (fun p x =>
      x_torch <- call 410 "torch.tensor" [x] ;;
      f <- get_global 411 "quantum_model_plus_bias" ;;
      pred_torch <- quantum_model_plus_bias x_torch trained_params trained_bias ;;
      pred <- to_python_float 412 pred_torch ;;
      c <- call 413 ">" [pred; VInt 0] ;;
      b <- truth 413 c ;;
      let pred := if b : bool then VInt 1 else VInt (-1) in
      ret (p ++ [pred])%list) xs [].

(** [circuit_evals_variational(...)] (lines 464-470). *)
Definition circuit_evals_variational
  (n_data n_params n_steps evals_per_derivative split batch_size : value) : cmd value :=
  M <- ceil_three_quarters 464 n_data ;;
  Mpred <- call 465 "-" [n_data; M] ;;
  a <- call 467 "*" [n_params; n_steps] ;;
  b <- call 467 "*" [a; batch_size] ;;
  n_training <- call 467 "*" [b; evals_per_derivative] ;;
  let n_prediction := Mpred in
  call 470 "+" [n_training; n_prediction].

(** [model_evals_nn(...)] (lines 494-500). *)
Definition model_evals_nn (n_data n_params n_steps split batch_size : value) : cmd value :=
  M <- ceil_three_quarters 494 n_data ;;
  Mpred <- call 495 "-" [n_data; M] ;;
  n_training <- call 497 "*" [n_steps; batch_size] ;;
  let n_prediction := Mpred in
  call 500 "+" [n_training; n_prediction].

(** [name = expression] at top level. *)
Definition assign (x : string) (m : cmd value) : cmd unit :=
  v <- m ;; set_global x v.

(** [def name ...] at top level. *)
Definition def (x : string) : cmd unit := set_global x (VFun x).

(** [len(name)] for a global [name]. *)
Definition len_global (line : nat) (x : string) : cmd value :=
  v <- get_global line x ;;
  call line "len" [v].

(** [len(X_train) / len(X_test)] *)
Definition split_ratio (line : nat) : cmd value :=
  a <- len_global line "X_train" ;;
  b <- len_global line "X_test" ;;
  call line "/" [a; b].

(** [name.append(item)] for a global list [name]: a Python list grows in
    place; any other object gets its own [append] method called. *)
Definition append_global (line : nat) (x item : string) : cmd unit :=
  l <- get_global line x ;;
  v <- get_global line item ;;
  match l with
  | VList xs => set_global x (VList (xs ++ [v])%list)
  | _ => call line ".append" [l; v] ;;; ret tt
  end.

(** Lines 127-295: the data set and the kernel method. *)
Definition kernel_part : cmd unit :=
  call 127 "import" [VStr "numpy"] ;;;
  call 128 "import" [VStr "torch"] ;;;
  call 129 "import" [VStr "torch.nn.functional"] ;;;
  call 131 "import" [VStr "sklearn.svm"] ;;;
  call 132 "import" [VStr "sklearn.datasets"] ;;;
  call 133 "import" [VStr "sklearn.preprocessing"] ;;;
  call 134 "import" [VStr "sklearn.model_selection"] ;;;
  call 135 "import" [VStr "sklearn.metrics"] ;;;
  call 137 "import" [VStr "pennylane"] ;;;
  call 138 "import" [VStr "pennylane.templates"] ;;;
  call 139 "import" [VStr "pennylane.operation"] ;;;
  call 141 "import" [VStr "matplotlib.pyplot"] ;;;
  call 143 "np.random.seed" [VInt 42] ;;;
  blobs <- call 150 "make_blobs"
             [VKw "n_samples" (VInt 150); VKw "n_features" (VInt 3);
              VKw "centers" (VInt 2); VKw "cluster_std" (VFloat (15 # 10))] ;;
  Xy <- unpack2 150 blobs ;;
  set_global "X" (fst Xy) ;;;
  set_global "y" (snd Xy) ;;;
  assign "scaler" (
    sc <- call 153 "StandardScaler" [] ;;
    X <- get_global 153 "X" ;;
    call 153 ".fit" [sc; X]) ;;;
  assign "X_scaled" (
    scaler <- get_global 154 "scaler" ;;
    X <- get_global 154 "X" ;;
    call 154 ".transform" [scaler; X]) ;;;
  assign "y_scaled" (
    y <- get_global 158 "y" ;;
    d <- call 158 "-" [y; VFloat (5 # 10)] ;;
    call 158 "*" [VInt 2; d]) ;;;
  X_scaled <- get_global 160 "X_scaled" ;;
  y_scaled <- get_global 160 "y_scaled" ;;
  parts <- call 160 "train_test_split" [X_scaled; y_scaled] ;;
  four <- unpack4 160 parts ;;
  (let '(X_train, X_test, y_train, y_test) := four in
   set_global "X_train" X_train ;;;
   set_global "X_test" X_test ;;;
   set_global "y_train" y_train ;;;
   set_global "y_test" y_test) ;;;
  assign "n_qubits" (
    X_train <- get_global 169 "X_train" ;;
    x0 <- call 169 "[]" [X_train; VInt 0] ;;
    call 169 "len" [x0]) ;;;
  assign "dev_kernel" (
    n_qubits <- get_global 204 "n_qubits" ;;
    call 204 "qml.device" [VStr "default.qubit"; wires n_qubits]) ;;;
  r <- range_n_qubits 206 ;;
  idx <- iterate 206 r ;;
  obs <- mapM (fun i => call 206 "qml.PauliZ" [i]) idx ;;
  set_global "observables" (VList obs) ;;;
  assign "kernel" (
    dev_kernel <- get_global 208 "dev_kernel" ;;
    call 208 "qml.qnode" [dev_kernel; VFun "kernel"]) ;;;
  qnode <- get_global 223 "kernel" ;;
  X_train <- get_global 223 "X_train" ;;
  a <- call 223 "[]" [X_train; VInt 0] ;;
  X_train <- get_global 223 "X_train" ;;
  b <- call 223 "[]" [X_train; VInt 0] ;;
  kernel qnode a b ;;;
  def "kernel_matrix" ;;;
  assign "svm" (
    km <- get_global 246 "kernel_matrix" ;;
    svc <- call 246 "SVC" [VKw "kernel" km] ;;
    X_train <- get_global 246 "X_train" ;;
    y_train <- get_global 246 "y_train" ;;
    K <- kernel_matrix X_train X_train ;;
    call 246 ".fit" [svc; X_train; y_train; K]) ;;;
  assign "predictions" (
    svm <- get_global 253 "svm" ;;
    X_test <- get_global 253 "X_test" ;;
    X_fit <- call 253 ".__Xfit" [svm] ;;
    K <- kernel_matrix X_test X_fit ;;
    call 253 ".predict" [svm; X_test; K]) ;;;
  predictions <- get_global 254 "predictions" ;;
  y_test <- get_global 254 "y_test" ;;
  call 254 "accuracy_score" [predictions; y_test] ;;;
  dev_kernel <- get_global 261 "dev_kernel" ;;
  call 261 ".num_executions" [dev_kernel] ;;;
  def "circuit_evals_kernel" ;;;
  f <- get_global 295 "circuit_evals_kernel" ;;
  n_data <- len_global 295 "X" ;;
  split <- split_ratio 295 ;;
  circuit_evals_kernel n_data split ;;;
  ret tt.

(** Lines 318-437: the variational model, its training and its test. *)
Definition variational_part : cmd unit :=
  assign "dev_var" (
    n_qubits <- get_global 318 "n_qubits" ;;
    call 318 "qml.device" [VStr "default.qubit"; wires n_qubits]) ;;;
  assign "quantum_model" (
    dev_var <- get_global 321 "dev_var" ;;
    call 321 "qml.qnode"
      [dev_var; VKw "interface" (VStr "torch");
       VKw "diff_method" (VStr "parameter-shift"); VFun "quantum_model"]) ;;;
  def "quantum_model_plus_bias" ;;;
  def "hinge_loss" ;;;
  def "quantum_model_train" ;;;
  def "quantum_model_predict" ;;;
  set_global "n_layers" (VInt 1) ;;;
  set_global "batch_size" (VInt 20) ;;;
  set_global "steps" (VInt 80) ;;;
  f <- get_global 430 "quantum_model_train" ;;
  n_layers <- get_global 430 "n_layers" ;;
  steps <- get_global 430 "steps" ;;
  batch_size <- get_global 430 "batch_size" ;;
  trained <- quantum_model_train n_layers steps batch_size ;;
  (let '(trained_params, trained_bias, loss_history) := trained in
   set_global "trained_params" trained_params ;;;
   set_global "trained_bias" trained_bias ;;;
   set_global "loss_history" (VList loss_history)) ;;;
  f <- get_global 432 "quantum_model_predict" ;;
  X_test <- get_global 432 "X_test" ;;
  trained_params <- get_global 432 "trained_params" ;;
  trained_bias <- get_global 432 "trained_bias" ;;
  p <- quantum_model_predict X_test trained_params trained_bias ;;
  set_global "pred_test" (VList p) ;;;
  pred_test <- get_global 433 "pred_test" ;;
  y_test <- get_global 433 "y_test" ;;
  acc <- call 433 "accuracy_score" [pred_test; y_test] ;;
  call 433 "print" [VStr "accuracy on test set:"; acc] ;;;
  loss_history <- get_global 435 "loss_history" ;;
  call 435 "plt.plot" [loss_history] ;;;
  call 436 "plt.ylim" [VTuple [VInt 0; VInt 1]] ;;;
  call 437 "plt.show" [] ;;;
  dev_var <- get_global 444 "dev_var" ;;
  call 444 ".num_executions" [dev_var] ;;;
  ret tt.

(** [len(trained_params.flatten())] *)
Definition n_trained_params (line : nat) : cmd value :=
  trained_params <- get_global line "trained_params" ;;
  flat <- call line ".flatten" [trained_params] ;;
  call line "len" [flat].

(** One turn of the loop of lines 563-581. *)
Definition scaling_step (M : value) : cmd unit :=
  set_global "M" M ;;;
  assign "var1" (
    f <- get_global 565 "circuit_evals_variational" ;;
    n_data <- get_global 566 "M" ;;
    n_params <- get_global 566 "M" ;;
    n_steps <- get_global 566 "M" ;;
    circuit_evals_variational n_data n_params n_steps
      (VInt 2) (VFloat (75 # 100)) (VInt 1)) ;;;
  append_global 568 "variational_training1" "var1" ;;;
  assign "var2" (
    f <- get_global 570 "circuit_evals_variational" ;;
    n_data <- get_global 571 "M" ;;
    M' <- get_global 571 "M" ;;
    s <- call 571 "np.sqrt" [M'] ;;
    n_params <- call 571 "round" [s] ;;
    n_steps <- get_global 571 "M" ;;
    circuit_evals_variational n_data n_params n_steps
      (VInt 2) (VFloat (75 # 100)) (VInt 1)) ;;;
  append_global 573 "variational_training2" "var2" ;;;
  assign "kernel" (
    f <- get_global 575 "circuit_evals_kernel" ;;
    n_data <- get_global 575 "M" ;;
    circuit_evals_kernel n_data (VFloat (75 # 100))) ;;;
  append_global 576 "kernelbased_training" "kernel" ;;;
  assign "nn" (
    f <- get_global 578 "model_evals_nn" ;;
    n_data <- get_global 579 "M" ;;
    n_params <- get_global 579 "M" ;;
    n_steps <- get_global 579 "M" ;;
    model_evals_nn n_data n_params n_steps (VFloat (75 # 100)) (VInt 1)) ;;;
  append_global 581 "nn_training" "nn".

(** [plt.plot(x_axis, series, ...)] *)
Definition plot_series (line : nat) (series : string) (options : list value) : cmd unit :=
  x_axis <- get_global line "x_axis" ;;
  ys <- get_global line series ;;
  call line "plt.plot" (x_axis :: ys :: options) ;;; ret tt.

(** Lines 459-592: the comparison of the scaling of the three methods. *)
Definition scaling_part : cmd unit :=
  def "circuit_evals_variational" ;;;
  f <- get_global 473 "circuit_evals_variational" ;;
  n_data <- len_global 474 "X" ;;
  n_params <- n_trained_params 475 ;;
  n_steps <- get_global 476 "steps" ;;
  split <- split_ratio 478 ;;
  batch_size <- get_global 479 "batch_size" ;;
  circuit_evals_variational n_data n_params n_steps (VInt 2) split batch_size ;;;
  def "model_evals_nn" ;;;
  f <- get_global 514 "model_evals_nn" ;;
  n_data <- len_global 515 "X" ;;
  n_params <- n_trained_params 516 ;;
  n_steps <- get_global 517 "steps" ;;
  split <- split_ratio 518 ;;
  batch_size <- get_global 519 "batch_size" ;;
  model_evals_nn n_data n_params n_steps split batch_size ;;;
  set_global "variational_training1" (VList []) ;;;
  set_global "variational_training2" (VList []) ;;;
  set_global "kernelbased_training" (VList []) ;;;
  set_global "nn_training" (VList []) ;;;
  assign "x_axis" (call 562 "range" [VInt 0; VInt 2000; VInt 100]) ;;;
  x_axis <- get_global 563 "x_axis" ;;
  Ms <- iterate 563 x_axis ;;
  for_each Ms scaling_step ;;;
  plot_series 584 "nn_training"
    [VKw "linestyle" (VStr "--"); VKw "label" (VStr "neural net")] ;;;
  plot_series 585 "variational_training1"
    [VKw "label" (VStr "var. circuit (linear param scaling)")] ;;;
  plot_series 586 "variational_training2"
    [VKw "label" (VStr "var. circuit (srqt param scaling)")] ;;;
  plot_series 587 "kernelbased_training"
    [VKw "label" (VStr "(quantum) kernel")] ;;;
  call 588 "plt.xlabel" [VStr "size of data set"] ;;;
  call 589 "plt.ylabel" [VStr "number of evaluations"] ;;;
  call 590 "plt.legend" [] ;;;
  call 591 "plt.tight_layout" [] ;;;
  call 592 "plt.show" [] ;;;
  ret tt.

(** The whole script. *)
Definition kernel_script : cmd unit :=
  kernel_part ;;; variational_part ;;; scaling_part.

End Program.

(** The operations the script invokes. *)
Definition kernel_api : list string :=
  ["import"; "np.random.seed"; "make_blobs"; "unpack"; "StandardScaler";
   ".fit"; ".transform"; "-"; "*"; "train_test_split"; "[]"; "len";
   "qml.device"; "range"; "iter"; "qml.PauliZ"; "qml.qnode";
   "AngleEmbedding"; "qml.inv"; "Tensor"; "qml.expval"; "QNode.execute";
   "np.array"; "SVC"; ".__Xfit"; ".predict"; "accuracy_score";
   ".num_executions"; "/"; "np.ceil"; "int"; "+";
   "StronglyEntanglingLayers"; "torch.ones_like"; "relu"; ".detach";
   ".numpy"; ".item"; ".zero_grad"; "torch.stack"; "torch.mean"; "%"; "==";
   "bool"; "print"; ".backward"; "np.random.random"; "torch.tensor";
   "torch.optim.Adam"; "np.random.choice"; ".step"; ">"; ".append";
   "plt.plot"; "plt.ylim"; "plt.show"; ".flatten"; "np.sqrt"; "round";
   "plt.xlabel"; "plt.ylabel"; "plt.legend"; "plt.tight_layout";
   "NameError"].

(** The operations that print or plot. *)
Definition output_operations : list string :=
  ["print"; "plt.plot"; "plt.ylim"; "plt.show"].

(** The source lines that print or plot what the variational circuit
    produced: the loss, the accuracy and the loss history. *)
Definition result_output_lines : list nat := [393; 433; 435; 436; 437].

(** What must have completed before an operation: each device is
    configured (lines 204, 318) before the QNode on it is defined (lines
    208, 321), each QNode is defined before it is executed, the second
    device is configured only after the kernel QNode has been executed, and
    the variational QNode is defined before its results are printed or
    plotted. *)
Definition kernel_deps (k : string * nat) : list (string * nat) :=
  if String.eqb (fst k) "qml.device" then
    (if Nat.eqb (snd k) 318 then [("QNode.execute", 208)] else [])
  else if String.eqb (fst k) "qml.qnode" then
    (if Nat.eqb (snd k) 208 then [("qml.device", 204)] else [("qml.device", 318)])
  else if String.eqb (fst k) "QNode.execute" then [("qml.qnode", snd k)]
  else if existsb (String.eqb (fst k)) output_operations
          && existsb (Nat.eqb (snd k)) result_output_lines
       then [("qml.qnode", 321)]
  else [].

(** The globals the script binds. *)
Definition kernel_globals : list string :=
  ["X"; "y"; "scaler"; "X_scaled"; "y_scaled"; "X_train"; "X_test";
   "y_train"; "y_test"; "n_qubits"; "dev_kernel"; "observables"; "kernel";
   "kernel_matrix"; "svm"; "predictions"; "circuit_evals_kernel"; "dev_var";
   "quantum_model"; "quantum_model_plus_bias"; "hinge_loss";
   "quantum_model_train"; "quantum_model_predict"; "n_layers"; "batch_size";
   "steps"; "trained_params"; "trained_bias"; "loss_history"; "pred_test";
   "circuit_evals_variational"; "model_evals_nn"; "variational_training1";
   "variational_training2"; "kernelbased_training"; "nn_training"; "x_axis";
   "M"; "var1"; "var2"; "nn"].

(** The names bound only inside the loop of lines 563-581, and the globals
    that are bound when the script has ended normally: all but these. *)
Definition loop_names : list string := ["M"; "var1"; "var2"; "nn"].

Definition kernel_bound_names : list string :=
  List.filter (fun x => negb (existsb (String.eqb x) loop_names)) kernel_globals.

End KernelTraining.


(** Membership of a name in a list of operation names. *)
Definition in_api (names : list string) (n : string) : bool :=
  existsb (String.eqb n) names.

(** ** What a run may do: the invariant proved of every function *)

Module Rules.
Local Open Scope list_scope.

Definition key : Type := (string * nat)%type.

Section Invariant.
Context {L : library}.

(** The operations a script may invoke, and for each program point the
    program points that must have completed before it. *)
Variable api : string -> bool.
Variable deps : key -> list key.

Definition ev_key (e : event) : key := (ev_name e, ev_line e).

Definition succeeded (e : event) : bool :=
  match ev_raised e with
  | None => true
  | Some _ => false
  end.

Definition ok_keys (evs : list event) : list key :=
  map ev_key (List.filter succeeded evs).

(** The exception that ends a run is the one of the last operation, and
    every operation before it succeeded; a run that ends normally has seen
    no exception at all. *)
Definition propagated (o : option exn) (evs : list event) : Prop :=
  match o with
  | None => Forall (fun e => succeeded e = true) evs
  | Some x =>
      exists evs0 e, evs = evs0 ++ [e] /\ ev_raised e = Some x /\
                     Forall (fun e => succeeded e = true) evs0
  end.

(** Every event comes after the successful events it depends on, given
    that the program points [S] completed before the first event. *)
Fixpoint closed_from (S : list key) (evs : list event) : Prop :=
  match evs with
  | [] => True
  | e :: evs' =>
      incl (deps (ev_key e)) S /\
      closed_from (if succeeded e then ev_key e :: S else S) evs'
  end.

(** The relation between the world before and after a run: globals outside
    [W] keep their binding, the log grows by events of admissible
    operations in dependency order, exceptions are propagated, and after a
    normal end the program points [S'] have completed. *)
Definition run_rel (S S' : list key) (W : list string)
  (w : world) (o : option exn) (w' : world) : Prop :=
  (forall x, ~ In x W -> globals w' !! x = globals w !! x) /\
  exists evs,
    log w' = log w ++ evs /\
    Forall (fun e => api (ev_name e) = true) evs /\
    propagated o evs /\
    closed_from S evs /\
    (o = None -> incl S' (S ++ ok_keys evs)).

Definition rspec {A : Type} (S S' : list key) (W : list string) (p : cmd A) : Prop :=
  forall w, run_rel S S' W w (outcome (fst (p w))) (snd (p w)).

(** The events a run of [p] from [w] adds to the log. *)
Definition events_of {A : Type} (p : cmd A) (w : world) : list event :=
  skipn (length (log w)) (log (snd (p w))).

(** Every event is preceded by a successful event at each of the program
    points it depends on. *)
Definition in_dependency_order (evs : list event) : Prop :=
  forall pre e post d,
    evs = pre ++ e :: post ->
    In d (deps (ev_key e)) ->
    exists e', In e' pre /\ ev_key e' = d /\ succeeded e' = true.

(** An exception that ends a run of [p] is the one raised by the last
    operation the run delegated, and no earlier operation raised. *)
Definition exceptions_are_the_libraries {A : Type} (p : cmd A) : Prop :=
  forall w, propagated (outcome (fst (p w))) (events_of p w).

End Invariant.

(** The steps the specification names: (a) configuring a device, (b)
    defining a circuit, (c) executing it, (e) printing or plotting.  Step
    (d), post-processing, has no operation of its own: the numerical
    routines it uses also compute inputs. *)
Inductive phase : Type := Configure | Define | Execute | Output.

Definition phase_rank (p : phase) : nat :=
  match p with
  | Configure => 0
  | Define => 1
  | Execute => 2
  | Output => 3
  end.

Definition phase_of_name (n : string) : option phase :=
  if String.eqb n "qml.device" then Some Configure
  else if String.eqb n "qml.qnode" then Some Define
  else if String.eqb n "QNode.execute" then Some Execute
  else if String.eqb n "print" || String.prefix "plt." n then Some Output
  else None.

(** The steps occur in one pass: no event of an earlier step follows an
    event of a later step. *)
Definition single_pass {L : library} (evs : list event) : Prop :=
  forall pre e1 mid e2 post p1 p2,
    evs = pre ++ e1 :: mid ++ e2 :: post ->
    phase_of_name (ev_name e1) = Some p1 ->
    phase_of_name (ev_name e2) = Some p2 ->
    phase_rank p1 <= phase_rank p2.

(** Operations that create or write files, by the names under which the
    libraries of the scripts offer them. *)
Definition file_output_operations : list string :=
  ["open"; ".write"; ".writelines"; "plt.savefig"; ".savefig"; "np.save";
   "np.savez"; "np.savetxt"; ".tofile"; ".dump"; "pickle.dump";
   "joblib.dump"; "torch.save"; ".to_csv"; "os.mkdir"; "os.makedirs"].

(** Operations that change an array or a list in place: item and slice
    assignment, augmented assignment, and the mutating methods of NumPy
    arrays and Python lists. *)
Definition in_place_operations : list string :=
  ["[]="; "+="; "-="; "*="; "/="; "**="; "@="; ".fill"; ".sort"; ".resize";
   ".put"; ".itemset"; ".setfield"; ".setflags"; ".partition"; ".byteswap";
   "np.copyto"; "np.put"; "np.place"; "np.putmask"; "np.fill_diagonal";
   ".append"; ".extend"; ".insert"; ".pop"; ".remove"; ".clear"; ".reverse";
   "del"].

(** [n] is one of [names] and not a file operation. *)
Definition writes_no_file (names : list string) (n : string) : bool :=
  in_api names n && negb (in_api file_output_operations n).

(** *** Bound names and counted operations *)

Section Names.
Context {L : library}.

Definition mem (x : string) (B : list string) : bool := existsb (String.eqb x) B.

Definition all_in (R B : list string) : bool := forallb (fun x => mem x B) R.

(** Every name of [B] is bound in [w]. *)
Definition bound (B : list string) (w : world) : Prop :=
  forall x, mem x B = true -> is_Some (globals w !! x).

Definition is_name_error (e : event) : bool := String.eqb (ev_name e) "NameError".

(** Started with the names [B] bound, [p] unbinds no name, reads no unbound
    name, and after a normal end the names [B'] are bound. *)
Definition binds {A : Type} (B B' : list string) (p : cmd A) : Prop :=
  forall w, bound B w ->
    (forall x, is_Some (globals w !! x) -> is_Some (globals (snd (p w)) !! x)) /\
    (exists evs, log (snd (p w)) = log w ++ evs /\
                 Forall (fun e => is_name_error e = false) evs) /\
    (outcome (fst (p w)) = None -> bound B' (snd (p w))).

(** The number of operations named [n] in a log. *)
Definition count_name (n : string) (l : list event) : nat :=
  length (List.filter (fun e => String.eqb (ev_name e) n) l).

(** Iterating [v] yields the items [xs], whatever the state of the
    libraries. *)
Definition iterates_to (v : value) (xs : list value) : Prop :=
  forall s r s', lib_iter v s = (Ok r, s') -> r = xs.

End Names.

End Rules.

(** A small stand-in for the interpreter and the libraries, used to run the
    scripts: integers, ranges and lists behave as in Python,
    [AngleEmbedding] rejects more features than wires, every other call
    succeeds and returns a fresh opaque object, and an opaque object
    iterates as two opaque rows. *)
Module Toy.
Local Open Scope string_scope.

Fixpoint range_from (start step : Z) (count : nat) : list value :=
  match count with
  | O => []
  | S n => VInt start :: range_from (start + step) step n
  end.

Definition toy_call (name : string) (args : list value) (s : N)
  : result string value * N :=
  let fresh := (Ok (VObj s), N.succ s) in
  match args with
  | [VInt n] =>
      if String.eqb name "range" then (Ok (VList (range_from 0 1 (Z.to_nat n))), s)
      else fresh
  | [VInt a; VInt b] =>
      if String.eqb name "%" then
        (if (b =? 0)%Z then (Raise "ZeroDivisionError", s) else (Ok (VInt (a mod b)), s))
      else if String.eqb name "==" then (Ok (VBool (a =? b)%Z), s)
      else fresh
  | [VInt a; VInt b; VInt c] =>
      if String.eqb name "range"
      then (Ok (VList (range_from a c (Z.to_nat ((b - a + c - 1) / c)))), s)
      else fresh
  | [VList features; VKw _ (VList ws)] =>
      if String.eqb name "AngleEmbedding" && (length ws <? length features)%nat
      then (Raise "ValueError", s)
      else fresh
  | _ => fresh
  end.

Definition toy_iter (v : value) (s : N) : result string (list value) * N :=
  match v with
  | VList xs => (Ok xs, s)
  | VTuple xs => (Ok xs, s)
  | VObj _ => (Ok [VObj s; VObj (N.succ s)], N.succ (N.succ s))
  | _ => (Raise "TypeError", s)
  end.

Definition toy_truth (v : value) (s : N) : result string bool * N :=
  match v with
  | VBool b => (Ok b, s)
  | _ => (Ok true, s)
  end.

Definition toy_unpack2 (v : value) (s : N) : result string (value * value) * N :=
  match v with
  | VTuple [a; b] => (Ok (a, b), s)
  | VObj _ => (Ok (VObj s, VObj (N.succ s)), N.succ (N.succ s))
  | _ => (Raise "ValueError", s)
  end.

Definition toy_unpack4 (v : value) (s : N)
  : result string (value * value * value * value) * N :=
  match v with
  | VTuple [a; b; c; d] => (Ok (a, b, c, d), s)
  | VObj _ => (Ok (VObj s, VObj (s + 1), VObj (s + 2), VObj (s + 3)), (s + 4)%N)
  | _ => (Raise "ValueError", s)
  end.

Definition toy_library : library :=
  {| exn := string;
     libstate := N;
     lib_call := toy_call;
     lib_iter := toy_iter;
     lib_truth := toy_truth;
     lib_unpack2 := toy_unpack2;
     lib_unpack4 := toy_unpack4;
     name_error := fun x => "NameError" |}.

(** The world a script starts in: no global is bound, nothing is logged. *)
Definition start : @world toy_library := @mk_world toy_library ∅ 0%N [].

(** A world in which the kernel QNode has been defined on two qubits. *)
Definition two_qubits : @world toy_library :=
  @mk_world toy_library
    (<["kernel" := VObj 0]> (<["observables" := VList []]>
       (<["n_qubits" := VInt 2]> ∅))) 1%N [].

(** The names and lines of the events of a log. *)
Definition trace (l : list (@event toy_library)) : list (string * nat) :=
  map (fun e => (ev_name e, ev_line e)) l.

(** A world in which each of [names] is bound to [v]. *)
Definition bind_all (names : list string) (v : value) : @world toy_library :=
  @mk_world toy_library (fold_right (fun x g => <[x := v]> g) ∅ names) 0%N [].

End Toy.

End Script.

(* ===================================================================== *)
(** * Part II: properties                                                 *)
(* ===================================================================== *)

(** ** Counting circuit evaluations *)

Module EvalsFacts.
Import Evals.
Local Open Scope Z_scope.

Lemma np_ceil_three_quarters (n : Z) :
  np_ceil (Qmult lit_0_75 (inject_Z n)) = ceil_three_quarters n.
Proof.
  unfold np_ceil, ceil_three_quarters, lit_0_75, Qceiling, Qfloor, Qopp, Qmult, inject_Z.
  cbn [Qnum Qden].
  replace (Z.pos (100 * 1)) with 100 by reflexivity.
  assert (H1 : - (75 * n) = 25 * (- (3 * n))) by lia.
  rewrite H1.
  replace 100 with (25 * 4) by reflexivity.
  rewrite Z.div_mul_cancel_l by lia.
  pose proof (Z.div_mod (- (3 * n)) 4 ltac:(lia)) as Hd.
  pose proof (Z.mod_pos_bound (- (3 * n)) 4 ltac:(lia)) as Hm.
  apply Z.div_unique with (r := 3 * n + 3 + 4 * (- (3 * n) / 4)); lia.
Qed.

Lemma ceil_three_quarters_bounds (n : Z) :
  3 * n <= 4 * ceil_three_quarters n < 3 * n + 4.
Proof.
  unfold ceil_three_quarters.
  pose proof (Z.div_mod (3 * n + 3) 4 ltac:(lia)) as Hd.
  pose proof (Z.mod_pos_bound (3 * n + 3) 4 ltac:(lia)) as Hm.
  lia.
Qed.

Example circuit_evals_kernel_150 :
  circuit_evals_kernel 150 (112 # 38)%Q = 16950.
Proof. reflexivity. Qed.


(** *** Further properties of the three counting functions *)

Lemma test_share (n : Z) : n - ceil_three_quarters n = n / 4.
Proof.
  unfold ceil_three_quarters.
  pose proof (Z.div_mod (3 * n + 3) 4 ltac:(lia)) as Hd.
  pose proof (Z.mod_pos_bound (3 * n + 3) 4 ltac:(lia)) as Hm.
  apply Z.div_unique with (r := 3 - (3 * n + 3) mod 4); lia.
Qed.

(** X1. The number of kernel evaluations is the product of the number of
    training samples and the size of the data set, [M * n_data] with
    [M = ceil(0.75 * n_data)]; for a data set of [n_data >= 0] samples it
    lies between [3 n^2 / 4] and [(3 n^2 + 3 n) / 4]. *)
Theorem circuit_evals_kernel_product (A : Type) (n_data : Z) (split : A) :
  circuit_evals_kernel n_data split = ceil_three_quarters n_data * n_data /\
  (0 <= n_data ->
   3 * n_data * n_data <= 4 * circuit_evals_kernel n_data split
                       <= 3 * n_data * n_data + 3 * n_data).
Proof.
  assert (Hp : circuit_evals_kernel n_data split = ceil_three_quarters n_data * n_data).
  { unfold circuit_evals_kernel. rewrite np_ceil_three_quarters. cbv zeta. ring. }
  split; [exact Hp |]. intros Hn. rewrite Hp.
  pose proof (ceil_three_quarters_bounds n_data) as [Hlo Hhi].
  assert (Hhi' : 4 * ceil_three_quarters n_data <= 3 * n_data + 3) by lia.
  split; nia.
Qed.

Lemma circuit_evals_kernel_product_witness :
  0 <= 150 /\
  3 * 150 * 150 <= 4 * circuit_evals_kernel 150 tt <= 3 * 150 * 150 + 3 * 150.
Proof.
  split; [lia |].
  apply (proj2 (circuit_evals_kernel_product unit 150 tt)). lia.
Defined.

(** X2. The variational count is [n_params * n_steps * batch_size *
    evals_per_derivative] training evaluations plus one prediction per test
    sample, and the test set the function assumes has [floor(n_data / 4)]
    samples; the [split] argument has no influence. *)
Theorem circuit_evals_variational_value (A B : Type)
  (n_data n_params n_steps evals_per_derivative batch_size : Z) (split : A) (split' : B) :
  circuit_evals_variational n_data n_params n_steps evals_per_derivative split batch_size
  = n_params * n_steps * batch_size * evals_per_derivative + n_data / 4 /\
  circuit_evals_variational n_data n_params n_steps evals_per_derivative split batch_size
  = circuit_evals_variational n_data n_params n_steps evals_per_derivative split' batch_size.
Proof.
  split; [| reflexivity].
  unfold circuit_evals_variational. rewrite np_ceil_three_quarters. cbv zeta.
  rewrite test_share. reflexivity.
Qed.

(** X3. The neural-network count is [n_steps * batch_size + floor(n_data /
    4)]: it does not depend on the number of parameters (nor on [split]),
    which is the point the tutorial makes about backpropagation. *)
Theorem model_evals_nn_value (A A' B B' : Type)
  (n_data n_steps batch_size : Z) (n_params : B) (n_params' : B')
  (split : A) (split' : A') :
  model_evals_nn n_data n_params n_steps split batch_size
  = n_steps * batch_size + n_data / 4 /\
  model_evals_nn n_data n_params n_steps split batch_size
  = model_evals_nn n_data n_params' n_steps split' batch_size.
Proof.
  split; [| reflexivity].
  unfold model_evals_nn. rewrite np_ceil_three_quarters. cbv zeta.
  rewrite test_share. reflexivity.
Qed.

(** X4. With the same data, steps and batch size, variational training
    needs at least as many evaluations as a neural network as soon as every
    step costs at least one evaluation per sample ([n_params *
    evals_per_derivative >= 1]); the difference is [n_steps * batch_size *
    (n_params * evals_per_derivative - 1)]. *)
Theorem variational_at_least_nn (A B : Type)
  (n_data n_params n_steps evals_per_derivative batch_size : Z) (split : A) (any : B) :
  circuit_evals_variational n_data n_params n_steps evals_per_derivative split batch_size
  - model_evals_nn n_data any n_steps split batch_size
  = n_steps * batch_size * (n_params * evals_per_derivative - 1) /\
  (0 <= n_steps * batch_size -> 1 <= n_params * evals_per_derivative ->
   model_evals_nn n_data any n_steps split batch_size
   <= circuit_evals_variational n_data n_params n_steps evals_per_derivative
        split batch_size).
Proof.
  assert (Hd : circuit_evals_variational n_data n_params n_steps evals_per_derivative
                 split batch_size
               - model_evals_nn n_data any n_steps split batch_size
               = n_steps * batch_size * (n_params * evals_per_derivative - 1)).
  { unfold circuit_evals_variational, model_evals_nn. cbv zeta. ring. }
  split; [exact Hd |]. intros Hs Hp. nia.
Qed.

Lemma variational_at_least_nn_witness :
  0 <= 80 * 20 /\ 1 <= 18 * 2 /\
  model_evals_nn 150 tt 80 tt 20 <= circuit_evals_variational 150 18 80 2 tt 20.
Proof.
  split; [lia |]. split; [lia |].
  apply (proj2 (variational_at_least_nn unit unit 150 18 80 2 20 tt tt)); lia.
Defined.

(** X5. The comparison the tutorial plots (lines 563-581: [n_params =
    n_steps = n_data = M], two evaluations per derivative, batch size 1):
    for every data size [M >= 0] the neural network needs at most as many
    evaluations as the kernel method, and the kernel method at most as many
    as the variational circuit with linear parameter scaling. *)
Theorem plotted_order (A : Type) (M : Z) (split : A) :
  0 <= M ->
  model_evals_nn M M M split 1 <= circuit_evals_kernel M split /\
  circuit_evals_kernel M split <= circuit_evals_variational M M M 2 split 1.
Proof.
  intros HM.
  destruct (model_evals_nn_value A A Z Z M M 1 M M split split) as [Hnn _].
  destruct (circuit_evals_variational_value A A M M M 2 1 split split) as [Hv _].
  destruct (circuit_evals_kernel_product A M split) as [Hk _].
  rewrite Hnn, Hv, Hk.
  pose proof (ceil_three_quarters_bounds M) as [Hlo Hhi].
  pose proof (test_share M) as Hq.
  assert (H0 : 0 <= ceil_three_quarters M) by lia.
  assert (H1 : ceil_three_quarters M <= M) by lia.
  assert (Hq0 : 0 <= M / 4) by lia.
  split.
  - destruct (Z.eq_dec (ceil_three_quarters M) 0) as [E | E].
    + assert (M = 0) by lia. subst M. rewrite E. simpl. lia.
    + destruct (Z.eq_dec (ceil_three_quarters M) 1) as [E1 | E1].
      * assert (M = 1) by lia. subst M. reflexivity.
      * nia.
  - nia.
Qed.

Lemma plotted_order_witness :
  0 <= 1900 /\
  model_evals_nn 1900 1900 1900 (75 # 100)%Q 1 <= circuit_evals_kernel 1900 (75 # 100)%Q /\
  circuit_evals_kernel 1900 (75 # 100)%Q
  <= circuit_evals_variational 1900 1900 1900 2 (75 # 100)%Q 1.
Proof.
  split; [lia |]. apply (plotted_order Q 1900 (75 # 100)%Q). lia.
Defined.

End EvalsFacts.

(** ** The hinge loss *)

Module HingeFacts.
Import Hinge.
Local Open Scope Q_scope.

Lemma Qlt_bool_iff (a b : Q) : Qlt_bool a b = true <-> a < b.
Proof.
  unfold Qlt_bool. rewrite negb_true_iff.
  split.
  - intros H. apply Qnot_le_lt. intros Hle.
    apply Qle_bool_iff in Hle. congruence.
  - intros H. destruct (Qle_bool b a) eqn:E; [| reflexivity].
    apply Qle_bool_iff in E. exfalso. apply (Qlt_not_le _ _ H E).
Qed.

Lemma relu_entry_max (x : Q) : relu_entry x == Qmax 0 x.
Proof.
  unfold relu_entry. destruct (Qlt_bool 0 x) eqn:E.
  - apply Qlt_bool_iff in E. symmetry. apply Q.max_r. apply Qlt_le_weak, E.
  - assert (H : x <= 0).
    { apply Qnot_lt_le. intros Hlt. apply Qlt_bool_iff in Hlt. congruence. }
    symmetry. apply Q.max_l, H.
Qed.

Lemma relu_entry_nonneg (x : Q) : 0 <= relu_entry x.
Proof.
  unfold relu_entry. destruct (Qlt_bool 0 x) eqn:E.
  - apply Qlt_le_weak, Qlt_bool_iff, E.
  - apply Qle_refl.
Qed.

Lemma length_map2 (f : Q -> Q -> Q) (xs ys : list Q) :
  length (map2 f xs ys) = Nat.min (length xs) (length ys).
Proof.
  revert ys. induction xs as [| x xs IH]; intros [| y ys]; simpl; auto.
Qed.

(** The three entrywise passes of [hinge_loss] fuse into one. *)
Lemma hinge_data_fused (ps ts : list Q) :
  map relu_entry (map2 Qminus (map (fun _ => 1) ts) (map2 Qmult ps ts))
  = map2 (fun p t => relu_entry (1 - p * t)) ps ts.
Proof.
  revert ts. induction ps as [| p ps IH]; intros [| t ts]; simpl; auto.
  f_equal. apply IH.
Qed.

Lemma hinge_loss_value (p t : tensor) :
  shape p = shape t ->
  hinge_loss p t =
  Some (mk_tensor (shape t) (map2 (fun a b => relu_entry (1 - a * b)) (data p) (data t))).
Proof.
  intros Hs. unfold hinge_loss, tensor_mul, tensor_sub, elementwise.
  destruct (decide (shape p = shape t)) as [_ | Hn]; [| contradiction].
  cbn [shape data ones_like].
  destruct (decide (shape t = shape p)) as [_ | Hn]; [| congruence].
  unfold relu. cbn [shape data]. rewrite hinge_data_fused. reflexivity.
Qed.

Example hinge_loss_example :
  hinge_loss (mk_tensor [3%nat] [1 # 2; - (2 # 1); 3 # 1])
             (mk_tensor [3%nat] [1; 1; 1])
  = Some (mk_tensor [3%nat] [1 - (1 # 2) * 1; 1 - - (2 # 1) * 1; 0]).
Proof. reflexivity. Qed.



(** *** Further properties of the hinge loss *)

Lemma nth_error_map2 (f : Q -> Q -> Q) (xs ys : list Q) (i : nat) (a b : Q) :
  nth_error xs i = Some a -> nth_error ys i = Some b ->
  nth_error (map2 f xs ys) i = Some (f a b).
Proof.
  revert ys i. induction xs as [| x xs IH]; intros [| y ys] [| i] Ha Hb;
    simpl in *; try discriminate.
  - congruence.
  - apply IH; assumption.
Qed.



End HingeFacts.

(** ** Prediction with the variational model *)

Module PredictFacts.
Import Predict.

Section Model.

Variables sample torch_sample params : Type.
Variable torch_tensor : sample -> torch_sample.
Variable quantum_model : torch_sample -> params -> Q.

Lemma predict_fold (tp : params) (tb : Q) (X : list sample) (acc : list Z) :
  fold_left (predict_step torch_tensor quantum_model tp tb) X acc
  = acc ++ map (fun x =>
                  if Hinge.Qlt_bool 0
                       (quantum_model_plus_bias quantum_model (torch_tensor x) tp tb)
                  then 1%Z else (-1)%Z) X.
Proof.
  revert acc. induction X as [| x X IH]; intros acc; simpl.
  - now rewrite app_nil_r.
  - rewrite IH. unfold predict_step. rewrite <- app_assoc. reflexivity.
Qed.

Lemma predict_map (tp : params) (tb : Q) (X : list sample) :
  quantum_model_predict torch_tensor quantum_model X tp tb
  = map (fun x =>
           if Hinge.Qlt_bool 0
                (quantum_model_plus_bias quantum_model (torch_tensor x) tp tb)
           then 1%Z else (-1)%Z) X.
Proof. unfold quantum_model_predict. now rewrite predict_fold. Qed.

(** C9. [quantum_model_predict] returns exactly one label per element of
    [X_pred], every label is [1] or [-1], and an element whose raw model
    output (model value plus bias) is not strictly positive, zero included,
    gets the label [-1]. *)
Theorem quantum_model_predict_labels
  (X_pred : list sample) (trained_params : params) (trained_bias : Q) :
  length (quantum_model_predict torch_tensor quantum_model
            X_pred trained_params trained_bias) = length X_pred /\
  Forall (fun l => l = 1%Z \/ l = (-1)%Z)
    (quantum_model_predict torch_tensor quantum_model
       X_pred trained_params trained_bias) /\
  forall (i : nat) (x : sample),
    nth_error X_pred i = Some x ->
    ~ (0 < quantum_model_plus_bias quantum_model (torch_tensor x)
             trained_params trained_bias)%Q ->
    nth_error (quantum_model_predict torch_tensor quantum_model
                 X_pred trained_params trained_bias) i = Some (-1)%Z.
Proof.
  rewrite predict_map. split; [| split].
  - apply length_map.
  - induction X_pred as [| x X IH]; simpl; constructor; [| exact IH].
    destruct (Hinge.Qlt_bool 0 _); auto.
  - intros i x Hx Hneg. rewrite nth_error_map, Hx. simpl. f_equal.
    destruct (Hinge.Qlt_bool 0 _) eqn:E.
    + apply HingeFacts.Qlt_bool_iff in E. contradiction.
    + reflexivity.
Qed.

(** *** Further properties of the prediction loop *)

(** X7. Every sample is labelled on its own: the labels of a concatenated
    list are the labels of its parts, one after the other, and a sample
    whose raw output is strictly positive gets the label [1]. *)
Theorem quantum_model_predict_app
  (X Y : list sample) (trained_params : params) (trained_bias : Q) :
  quantum_model_predict torch_tensor quantum_model (X ++ Y) trained_params trained_bias
  = quantum_model_predict torch_tensor quantum_model X trained_params trained_bias
    ++ quantum_model_predict torch_tensor quantum_model Y trained_params trained_bias /\
  forall (i : nat) (x : sample),
    nth_error X i = Some x ->
    (0 < quantum_model_plus_bias quantum_model (torch_tensor x)
           trained_params trained_bias)%Q ->
    nth_error (quantum_model_predict torch_tensor quantum_model
                 X trained_params trained_bias) i = Some 1%Z.
Proof.
  rewrite !predict_map. split; [apply map_app |].
  intros i x Hx Hpos. rewrite nth_error_map, Hx. simpl. f_equal.
  apply HingeFacts.Qlt_bool_iff in Hpos. now rewrite Hpos.
Qed.

(** X8. Raising the bias never turns a label [1] into [-1]: with a larger
    bias every label is at least what it was. *)
Theorem quantum_model_predict_bias_monotone
  (X_pred : list sample) (trained_params : params) (bias bias' : Q) :
  (bias <= bias')%Q ->
  Forall2 Z.le
    (quantum_model_predict torch_tensor quantum_model X_pred trained_params bias)
    (quantum_model_predict torch_tensor quantum_model X_pred trained_params bias').
Proof.
  intros Hb. rewrite !predict_map.
  induction X_pred as [| x X IH]; simpl; constructor; [| exact IH].
  unfold quantum_model_plus_bias.
  destruct (Hinge.Qlt_bool 0 (quantum_model (torch_tensor x) trained_params + bias)) eqn:E.
  - apply HingeFacts.Qlt_bool_iff in E.
    assert (E' : (0 < quantum_model (torch_tensor x) trained_params + bias')%Q).
    { eapply Qlt_le_trans; [exact E |]. apply Qplus_le_r. exact Hb. }
    apply HingeFacts.Qlt_bool_iff in E'. rewrite E'. lia.
  - match goal with
    | |- context [Hinge.Qlt_bool ?a ?b] => destruct (Hinge.Qlt_bool a b)
    end; lia.
Qed.

End Model.

Lemma quantum_model_predict_app_witness :
  nth_error [2 # 1; 0]%Q 0 = Some (2 # 1)%Q /\
  (0 < (2 # 1) + - (1 # 2))%Q /\
  nth_error
    (quantum_model_predict (fun x : Q => x) (fun (x : Q) (_ : unit) => x)
       [2 # 1; 0]%Q tt (- (1 # 2))%Q) 0 = Some 1%Z.
Proof.
  split; [reflexivity |]. split; [reflexivity |].
  apply (proj2 (quantum_model_predict_app Q Q unit (fun x => x) (fun x _ => x)
                  [2 # 1; 0]%Q [] tt (- (1 # 2))%Q) 0%nat (2 # 1)%Q).
  - reflexivity.
  - reflexivity.
Defined.

Lemma quantum_model_predict_bias_monotone_witness :
  (- (1 # 2) <= 1 # 2)%Q /\
  Forall2 Z.le
    (quantum_model_predict (fun x : Q => x) (fun (x : Q) (_ : unit) => x)
       [1 # 4; 2 # 1; - (3 # 1)]%Q tt (- (1 # 2))%Q)
    (quantum_model_predict (fun x : Q => x) (fun (x : Q) (_ : unit) => x)
       [1 # 4; 2 # 1; - (3 # 1)]%Q tt (1 # 2)%Q).
Proof.
  split; [unfold Qle; simpl; lia |].
  apply (quantum_model_predict_bias_monotone Q Q unit (fun x => x) (fun x _ => x)).
  unfold Qle; simpl; lia.
Defined.

Example quantum_model_predict_example :
  quantum_model_predict (fun x : Q => x) (fun (x : Q) (_ : unit) => x)
    [1 # 2; 0; - (1 # 3); 2 # 1]%Q tt (- (1 # 2))%Q
  = [-1; -1; -1; 1]%Z.
Proof. reflexivity. Qed.

Lemma quantum_model_predict_labels_witness :
  nth_error [1 # 2; 0; - (1 # 3); 2 # 1]%Q 0 = Some (1 # 2)%Q /\
  ~ (0 < (1 # 2) + - (1 # 2))%Q /\
  nth_error
    (quantum_model_predict (fun x : Q => x) (fun (x : Q) (_ : unit) => x)
       [1 # 2; 0; - (1 # 3); 2 # 1]%Q tt (- (1 # 2))%Q) 0 = Some (-1)%Z.
Proof.
  split; [reflexivity |].
  split; [intros H; vm_compute in H; discriminate |].
  apply (proj2 (proj2 (quantum_model_predict_labels Q Q unit (fun x => x) (fun x _ => x)
           [1 # 2; 0; - (1 # 3); 2 # 1]%Q tt (- (1 # 2))%Q)) 0%nat (1 # 2)%Q).
  - reflexivity.
  - intros H; vm_compute in H; discriminate.
Defined.

End PredictFacts.

(** ** The quantum kernel *)

Module QuantumKernelFacts.
Import QuantumKernel.
Local Open Scope R_scope.

Ltac csolve :=
  unfold Cadd, Cmul, Cconj, C0, C1 in *; simpl in *;
  repeat match goal with c : C |- _ => destruct c end; simpl;
  try (f_equal; try ring; lra).

Lemma vscale_zero_r n c : vscale n c (vzero n) = vzero n.
Proof. induction n; simpl; [csolve | congruence]. Qed.
Lemma vscale_zero_l n v : vscale n C0 v = vzero n.
Proof. induction n; simpl. - csolve. - destruct v; simpl; f_equal; auto. Qed.
Lemma vscale_one n v : vscale n C1 v = v.
Proof. induction n; simpl. - csolve. - destruct v; simpl; f_equal; auto. Qed.
Lemma vadd_zero_r n v : vadd n v (vzero n) = v.
Proof. induction n; simpl. - csolve. - destruct v; simpl; f_equal; auto. Qed.
Lemma vadd_zero_l n v : vadd n (vzero n) v = v.
Proof. induction n; simpl. - csolve. - destruct v; simpl; f_equal; auto. Qed.

Lemma lincomb n (p q x y z t : C) (a b : state n) :
  vadd n (vscale n p (vadd n (vscale n x a) (vscale n y b)))
         (vscale n q (vadd n (vscale n z a) (vscale n t b)))
  = vadd n (vscale n (Cadd (Cmul p x) (Cmul q z)) a)
           (vscale n (Cadd (Cmul p y) (Cmul q t)) b).
Proof.
  induction n; simpl.
  - csolve.
  - destruct a, b; simpl; f_equal; auto.
Qed.

Lemma apply_gate_mul h g w n (s : state n) :
  apply_gate h w n (apply_gate g w n s) = apply_gate (gate_mul h g) w n s.
Proof.
  revert w s. induction n as [| m IH]; intros w s; simpl; [reflexivity |].
  destruct w as [| w']; simpl.
  - f_equal; apply lincomb.
  - f_equal; apply IH.
Qed.

Lemma apply_gate_id w n (s : state n) : apply_gate gate_id w n s = s.
Proof.
  revert w s. induction n as [| m IH]; intros w s; simpl; [reflexivity |].
  destruct s as [a b]. destruct w as [| w']; simpl.
  - rewrite !vscale_one, !vscale_zero_l, vadd_zero_r, vadd_zero_l. reflexivity.
  - f_equal; apply IH.
Qed.

Lemma sin_cos_half (phi : R) :
  cos (phi / 2) * cos (phi / 2) + sin (phi / 2) * sin (phi / 2) = 1.
Proof. pose proof (sin2_cos2 (phi / 2)) as H. unfold Rsqr in H. lra. Qed.

Lemma matrix_inv_cancel (o : operation) :
  gate_mul (matrix (op_inv o)) (matrix o) = gate_id.
Proof.
  destruct o as [nm w i]. unfold matrix, op_inv, gate_mul, gate_id. cbn [name wire inverse].
  destruct nm as [phi |]; destruct i; cbn [negb base_matrix];
    unfold conj_transpose, RX_matrix, PauliZ_matrix, Cadd, Cmul, Cconj, C0, C1;
    cbn [g00 g01 g10 g11 fst snd];
    pose proof (sin_cos_half phi) as Hp || idtac;
    f_equal; f_equal; try lra; try nra.
Qed.

Lemma execute_app n (a b : list operation) (s : state n) :
  execute n (a ++ b) s = execute n b (execute n a s).
Proof. unfold execute. apply fold_left_app. Qed.

Lemma op_inv_cancel n (o : operation) (s : state n) :
  apply_gate (matrix (op_inv o)) (wire (op_inv o)) n (apply_gate (matrix o) (wire o) n s) = s.
Proof.
  cbn [op_inv wire]. rewrite apply_gate_mul, matrix_inv_cancel. apply apply_gate_id.
Qed.

Lemma execute_inv_cancel n (ops : list operation) (s : state n) :
  execute n (ops ++ inv ops) s = s.
Proof.
  revert s. induction ops as [| o ops IH]; intros s; [reflexivity |].
  unfold inv. cbn [rev]. rewrite map_app. cbn [map].
  change (map op_inv (rev ops)) with (inv ops).
  replace ((o :: ops) ++ inv ops ++ [op_inv o])
    with ([o] ++ (ops ++ inv ops) ++ [op_inv o])
    by (cbn [app]; rewrite <- app_assoc; reflexivity).
  rewrite (execute_app n [o]), (execute_app n (ops ++ inv ops)), IH.
  apply op_inv_cancel.
Qed.

Lemma apply_gate_zero g w n : apply_gate g w n (vzero n) = vzero n.
Proof.
  revert w. induction n as [| m IH]; intros w; simpl; [reflexivity |].
  destruct w; simpl.
  - rewrite !vscale_zero_r, !vadd_zero_r. reflexivity.
  - rewrite !IH. reflexivity.
Qed.

Lemma PauliZ_basis_zero w n :
  apply_gate PauliZ_matrix w n (basis_zero n) = basis_zero n.
Proof.
  revert w. induction n as [| m IH]; intros w; simpl; [reflexivity |].
  destruct w; simpl.
  - rewrite !vscale_zero_r, vscale_one, vscale_zero_l, !vadd_zero_r. reflexivity.
  - rewrite IH, apply_gate_zero. reflexivity.
Qed.

Lemma observables_basis_zero n (ws : list nat) :
  execute n (map (fun i => mk_op PauliZ i false) ws) (basis_zero n) = basis_zero n.
Proof.
  induction ws as [| w ws IH]; [reflexivity |].
  unfold execute in *. cbn [map fold_left matrix inverse name wire base_matrix].
  rewrite PauliZ_basis_zero. exact IH.
Qed.

Lemma inner_zero n : inner n (vzero n) (vzero n) = C0.
Proof. induction n; simpl; [csolve | rewrite IHn; csolve]. Qed.

Lemma inner_basis_zero n : inner n (basis_zero n) (basis_zero n) = C1.
Proof. induction n; simpl; [csolve | rewrite IHn, inner_zero; csolve]. Qed.


(** On other pairs the measured observable, a product of PauliZ, is not
    the projector onto the all-zeros state: for one qubit, [x1 = PI] and
    [x2 = 0] the squared overlap is 0 and the QNode returns -1. *)
Example kernel_opposite_points : kernel 1 [PI] [0] = Some (-1).
Proof.
  unfold kernel, AngleEmbedding. cbn [length seq Nat.leb zip_rx].
  unfold expval, observables, execute, inv.
  cbn [seq map rev app fold_left op_inv name wire inverse negb matrix base_matrix].
  unfold conj_transpose, RX_matrix, PauliZ_matrix. cbn [g00 g01 g10 g11].
  replace (0 / 2) with 0 by lra.
  rewrite cos_PI2, sin_PI2, cos_0, sin_0.
  cbn. unfold Cre, Cadd, Cmul, Cconj, C0, C1. cbn [fst snd]. f_equal. lra.
Qed.


(** *** Further properties of the kernel *)

Lemma vscale_vscale n c d (u : state n) :
  vscale n c (vscale n d u) = vscale n (Cmul c d) u.
Proof. induction n; simpl; [csolve | destruct u; simpl; f_equal; auto]. Qed.

Lemma vscale_vadd n c (u v : state n) :
  vscale n c (vadd n u v) = vadd n (vscale n c u) (vscale n c v).
Proof. induction n; simpl; [csolve | destruct u, v; simpl; f_equal; auto]. Qed.

Lemma vadd_vscale n c d (u : state n) :
  vadd n (vscale n c u) (vscale n d u) = vscale n (Cadd c d) u.
Proof. induction n; simpl; [csolve | destruct u; simpl; f_equal; auto]. Qed.

Lemma Cmul_comm a b : Cmul a b = Cmul b a.
Proof. csolve. Qed.

Lemma apply_gate_vscale g w n c (v : state n) :
  apply_gate g w n (vscale n c v) = vscale n c (apply_gate g w n v).
Proof.
  revert w v. induction n as [| m IH]; intros w v; simpl; [reflexivity |].
  destruct v as [a b]. destruct w as [| w']; simpl.
  - rewrite !vscale_vadd, !vscale_vscale.
    rewrite (Cmul_comm (g00 g) c), (Cmul_comm (g01 g) c),
            (Cmul_comm (g10 g) c), (Cmul_comm (g11 g) c). reflexivity.
  - rewrite !IH. reflexivity.
Qed.

Lemma product_state_ext n (q q' : nat -> qubit) :
  (forall i, (i < n)%nat -> q i = q' i) -> product_state n q = product_state n q'.
Proof.
  revert q q'. induction n as [| m IH]; intros q q' H; simpl; [reflexivity |].
  rewrite (H O) by lia.
  rewrite (IH (fun i => q (S i)) (fun i => q' (S i))); [reflexivity |].
  intros i Hi. apply H. lia.
Qed.

Lemma apply_gate_product g w n (q : nat -> qubit) :
  apply_gate g w n (product_state n q)
  = product_state n (on_wire w (gate_apply g) q).
Proof.
  revert w q. induction n as [| m IH]; intros w q; [reflexivity |].
  destruct w as [| w'].
  - cbn [apply_gate product_state fst snd]. unfold on_wire at 1 2. cbn [Nat.eqb].
    unfold gate_apply. cbn [fst snd].
    rewrite !vscale_vscale, !vadd_vscale.
    f_equal; f_equal; apply product_state_ext; intros i _; reflexivity.
  - cbn [apply_gate product_state fst snd].
    rewrite !apply_gate_vscale, !IH.
    unfold on_wire at 3 4. cbn [Nat.eqb].
    f_equal; f_equal; apply product_state_ext; intros i _; reflexivity.
Qed.

Lemma execute_product n (ops : list operation) :
  forall q, execute n ops (product_state n q) = product_state n (execute_qubits ops q).
Proof.
  induction ops as [| o ops IH]; intros q; [reflexivity |].
  unfold execute, execute_qubits in *. cbn [fold_left].
  rewrite apply_gate_product. apply IH.
Qed.

Lemma basis_zero_product n : basis_zero n = product_state n (fun _ => ket0).
Proof.
  induction n as [| m IH]; [reflexivity |].
  cbn [basis_zero]. rewrite IH. cbn [product_state]. unfold ket0 at 2 3. cbn [fst snd].
  rewrite vscale_one, vscale_zero_l. reflexivity.
Qed.

Lemma execute_qubits_app (a b : list operation) q :
  execute_qubits (a ++ b) q = execute_qubits b (execute_qubits a q).
Proof. unfold execute_qubits. apply fold_left_app. Qed.

(** What the embedding does, wire by wire. *)
Lemma embedding_qubits (fs : list R) :
  forall (k m : nat) (q : nat -> qubit) (i : nat),
    execute_qubits (zip_rx fs (seq k m)) q i
    = if (k <=? i)%nat && (i <? k + Nat.min (length fs) m)%nat
      then gate_apply (RX_matrix (nth (i - k) fs 0)) (q i)
      else q i.
Proof.
  induction fs as [| f fs IH]; intros k m q i.
  - cbn [zip_rx length Nat.min]. unfold execute_qubits. cbn [fold_left].
    destruct (k <=? i)%nat eqn:E1; [| reflexivity].
    apply Nat.leb_le in E1.
    replace (i <? k + 0)%nat with false; [reflexivity |].
    symmetry. apply Nat.ltb_ge. lia.
  - destruct m as [| m].
    + cbn [seq zip_rx]. unfold execute_qubits. cbn [fold_left].
      rewrite Nat.min_0_r.
      destruct (k <=? i)%nat eqn:E1; [| reflexivity].
      apply Nat.leb_le in E1.
      replace (i <? k + 0)%nat with false; [reflexivity |].
      symmetry. apply Nat.ltb_ge. lia.
    + cbn [seq zip_rx]. unfold execute_qubits. cbn [fold_left].
      change (fold_left _ (zip_rx fs (seq (S k) m)) ?x) with
        (execute_qubits (zip_rx fs (seq (S k) m)) x).
      rewrite IH. cbn [matrix inverse name wire base_matrix length].
      unfold on_wire.
      destruct (Nat.eqb i k) eqn:Eik.
      * apply Nat.eqb_eq in Eik. subst i.
        replace (S k <=? k)%nat with false by (symmetry; apply Nat.leb_gt; lia).
        cbn [andb]. rewrite Nat.leb_refl.
        replace (k <? k + Nat.min (S (length fs)) (S m))%nat with true
          by (symmetry; apply Nat.ltb_lt; lia).
        cbn [andb]. rewrite Nat.sub_diag. reflexivity.
      * apply Nat.eqb_neq in Eik.
        destruct (S k <=? i)%nat eqn:E1.
        -- apply Nat.leb_le in E1.
           replace (k <=? i)%nat with true by (symmetry; apply Nat.leb_le; lia).
           cbn [andb].
           replace (i <? k + Nat.min (S (length fs)) (S m))%nat
             with (i <? S k + Nat.min (length fs) m)%nat.
           2:{ destruct (i <? S k + Nat.min (length fs) m)%nat eqn:E2; symmetry.
               - apply Nat.ltb_lt in E2. apply Nat.ltb_lt. lia.
               - apply Nat.ltb_ge in E2. apply Nat.ltb_ge. lia. }
           destruct (i <? S k + Nat.min (length fs) m)%nat; [| reflexivity].
           replace (i - k)%nat with (S (i - S k)) by lia. reflexivity.
        -- apply Nat.leb_gt in E1. cbn [andb].
           replace (k <=? i)%nat with false by (symmetry; apply Nat.leb_gt; lia).
           reflexivity.
Qed.

Lemma inv_cons (o : operation) (ops : list operation) :
  inv (o :: ops) = inv ops ++ [op_inv o].
Proof. unfold inv. cbn [rev]. rewrite map_app. reflexivity. Qed.

Lemma inverse_embedding_qubits (fs : list R) :
  forall (k m : nat) (q : nat -> qubit) (i : nat),
    execute_qubits (inv (zip_rx fs (seq k m))) q i
    = if (k <=? i)%nat && (i <? k + Nat.min (length fs) m)%nat
      then gate_apply (conj_transpose (RX_matrix (nth (i - k) fs 0))) (q i)
      else q i.
Proof.
  induction fs as [| f fs IH]; intros k m q i.
  - cbn [zip_rx length Nat.min]. unfold inv, execute_qubits. cbn [rev map fold_left].
    destruct (k <=? i)%nat eqn:E1; [| reflexivity].
    apply Nat.leb_le in E1.
    replace (i <? k + 0)%nat with false; [reflexivity |].
    symmetry. apply Nat.ltb_ge. lia.
  - destruct m as [| m].
    + cbn [seq zip_rx]. unfold inv, execute_qubits. cbn [rev map fold_left].
      rewrite Nat.min_0_r.
      destruct (k <=? i)%nat eqn:E1; [| reflexivity].
      apply Nat.leb_le in E1.
      replace (i <? k + 0)%nat with false; [reflexivity |].
      symmetry. apply Nat.ltb_ge. lia.
    + cbn [seq zip_rx]. rewrite inv_cons, execute_qubits_app.
      unfold execute_qubits at 1. cbn [fold_left].
      cbn [op_inv matrix inverse name wire base_matrix negb length].
      unfold on_wire. rewrite IH.
      destruct (Nat.eqb i k) eqn:Eik.
      * apply Nat.eqb_eq in Eik. subst i.
        replace (S k <=? k)%nat with false by (symmetry; apply Nat.leb_gt; lia).
        cbn [andb]. rewrite Nat.leb_refl.
        replace (k <? k + Nat.min (S (length fs)) (S m))%nat with true
          by (symmetry; apply Nat.ltb_lt; lia).
        cbn [andb]. rewrite Nat.sub_diag. reflexivity.
      * apply Nat.eqb_neq in Eik.
        destruct (S k <=? i)%nat eqn:E1.
        -- apply Nat.leb_le in E1.
           replace (k <=? i)%nat with true by (symmetry; apply Nat.leb_le; lia).
           cbn [andb].
           replace (i <? k + Nat.min (S (length fs)) (S m))%nat
             with (i <? S k + Nat.min (length fs) m)%nat.
           2:{ destruct (i <? S k + Nat.min (length fs) m)%nat eqn:E2; symmetry.
               - apply Nat.ltb_lt in E2. apply Nat.ltb_lt. lia.
               - apply Nat.ltb_ge in E2. apply Nat.ltb_ge. lia. }
           destruct (i <? S k + Nat.min (length fs) m)%nat; [| reflexivity].
           replace (i - k)%nat with (S (i - S k)) by lia. reflexivity.
        -- apply Nat.leb_gt in E1. cbn [andb].
           replace (k <=? i)%nat with false by (symmetry; apply Nat.leb_gt; lia).
           reflexivity.
Qed.

Lemma observables_qubits :
  forall (m k : nat) (q : nat -> qubit) (i : nat),
    execute_qubits (map (fun j => mk_op PauliZ j false) (seq k m)) q i
    = if (k <=? i)%nat && (i <? k + m)%nat
      then gate_apply PauliZ_matrix (q i)
      else q i.
Proof.
  induction m as [| m IH]; intros k q i.
  - cbn [seq map]. unfold execute_qubits. cbn [fold_left].
    destruct (k <=? i)%nat eqn:E1; [| reflexivity].
    apply Nat.leb_le in E1.
    replace (i <? k + 0)%nat with false; [reflexivity |].
    symmetry. apply Nat.ltb_ge. lia.
  - cbn [seq map]. unfold execute_qubits. cbn [fold_left].
    change (fold_left _ (map _ (seq (S k) m)) ?x) with
      (execute_qubits (map (fun j => mk_op PauliZ j false) (seq (S k) m)) x).
    rewrite IH. cbn [matrix inverse name wire base_matrix].
    unfold on_wire.
    destruct (Nat.eqb i k) eqn:Eik.
    + apply Nat.eqb_eq in Eik. subst i.
      replace (S k <=? k)%nat with false by (symmetry; apply Nat.leb_gt; lia).
      cbn [andb]. rewrite Nat.leb_refl.
      replace (k <? k + S m)%nat with true by (symmetry; apply Nat.ltb_lt; lia).
      reflexivity.
    + apply Nat.eqb_neq in Eik.
      destruct (S k <=? i)%nat eqn:E1.
      * apply Nat.leb_le in E1.
        replace (k <=? i)%nat with true by (symmetry; apply Nat.leb_le; lia).
        cbn [andb].
        replace (i <? k + S m)%nat with (i <? S k + m)%nat; [reflexivity |].
        destruct (i <? S k + m)%nat eqn:E2; symmetry.
        -- apply Nat.ltb_lt in E2. apply Nat.ltb_lt. lia.
        -- apply Nat.ltb_ge in E2. apply Nat.ltb_ge. lia.
      * apply Nat.leb_gt in E1. cbn [andb].
        replace (k <=? i)%nat with false by (symmetry; apply Nat.leb_gt; lia).
        reflexivity.
Qed.

Lemma Cmul_Cadd_l k x y : Cadd (Cmul k x) (Cmul k y) = Cmul k (Cadd x y).
Proof. csolve. Qed.

Lemma inner_vscale n c d (u v : state n) :
  inner n (vscale n c u) (vscale n d v) = Cmul (Cmul (Cconj c) d) (inner n u v).
Proof.
  induction n as [| m IH]; simpl.
  - csolve.
  - destruct u, v; simpl. rewrite !IH. apply Cmul_Cadd_l.
Qed.

Lemma inner_product n : forall (p q : nat -> qubit),
  inner n (product_state n p) (product_state n q)
  = Cprod n (fun i => qinner (p i) (q i)).
Proof.
  induction n as [| m IH]; intros p q.
  - cbn. csolve.
  - cbn [product_state inner Cprod fst snd].
    rewrite !inner_vscale, IH. unfold qinner.
    generalize (Cprod m (fun i => Cadd (Cmul (Cconj (fst (p (S i)))) (fst (q (S i))))
                                    (Cmul (Cconj (snd (p (S i)))) (snd (q (S i)))))).
    intros I. destruct (p O) as [a b], (q O) as [a' b']. cbn [fst snd]. csolve.
Qed.

Lemma Cprod_real n : forall (f : nat -> C) (r : nat -> R),
  (forall i, (i < n)%nat -> f i = (r i, 0)) ->
  Cprod n f = (Rprod n r, 0).
Proof.
  induction n as [| m IH]; intros f r H; [reflexivity |].
  cbn [Cprod Rprod]. rewrite (H O) by lia.
  rewrite (IH (fun i => f (S i)) (fun i => r (S i))).
  - unfold Cmul. cbn [fst snd]. f_equal; ring.
  - intros i Hi. apply H. lia.
Qed.

Lemma RX_zero (q : qubit) : gate_apply (RX_matrix 0) q = q.
Proof.
  unfold gate_apply, RX_matrix. cbn [g00 g01 g10 g11].
  replace (0 / 2) with 0 by lra. rewrite cos_0, sin_0.
  destruct q as [[a b] [c d]]. unfold Cadd, Cmul. cbn [fst snd].
  f_equal; f_equal; ring.
Qed.

Lemma RX_zero_inverse (q : qubit) :
  gate_apply (conj_transpose (RX_matrix 0)) q = q.
Proof.
  unfold gate_apply, conj_transpose, RX_matrix. cbn [g00 g01 g10 g11].
  replace (0 / 2) with 0 by lra. rewrite cos_0, sin_0.
  destruct q as [[a b] [c d]]. unfold Cadd, Cmul, Cconj. cbn [fst snd].
  f_equal; f_equal; ring.
Qed.

(** One wire: rotate by [a], rotate back by [b], measure PauliZ. *)
Lemma one_wire_expectation (a b : R) :
  let q := gate_apply (conj_transpose (RX_matrix b)) (gate_apply (RX_matrix a) ket0) in
  qinner q (gate_apply PauliZ_matrix q) = (cos (a - b), 0).
Proof.
  cbv zeta.
  unfold qinner, gate_apply, conj_transpose, RX_matrix, PauliZ_matrix, ket0.
  cbn [g00 g01 g10 g11 fst snd].
  unfold Cadd, Cmul, Cconj, C0, C1. cbn [fst snd].
  replace (a - b) with (2 * (a / 2 - b / 2)) by lra.
  rewrite cos_2a, cos_minus, sin_minus.
  f_equal; ring.
Qed.

Lemma embedded_qubit n (x1 x2 : list R) (i : nat) :
  (i < n)%nat ->
  execute_qubits (inv (zip_rx x2 (seq 0 n)))
    (execute_qubits (zip_rx x1 (seq 0 n)) (fun _ => ket0)) i
  = gate_apply (conj_transpose (RX_matrix (nth i x2 0)))
      (gate_apply (RX_matrix (nth i x1 0)) ket0).
Proof.
  intros Hi. rewrite inverse_embedding_qubits, embedding_qubits.
  cbn [Nat.leb andb]. rewrite !Nat.sub_0_r, !Nat.add_0_l.
  destruct (i <? Nat.min (length x1) n)%nat eqn:E1;
    destruct (i <? Nat.min (length x2) n)%nat eqn:E2;
    try apply Nat.ltb_ge in E1; try apply Nat.ltb_ge in E2.
  - reflexivity.
  - rewrite (nth_overflow x2) by lia. now rewrite RX_zero_inverse.
  - rewrite (nth_overflow x1) by lia. now rewrite RX_zero.
  - rewrite (nth_overflow x1), (nth_overflow x2) by lia.
    now rewrite RX_zero, RX_zero_inverse.
Qed.

(** X9. For feature vectors with at most one feature per qubit the kernel
    has a closed form: the product over the wires of the cosine of the
    difference of the two features on that wire (a missing feature counts
    as 0).  This is what the QNode computes; it is not the squared overlap
    the text of the tutorial announces. *)
Theorem kernel_closed_form (n_qubits : nat) (x1 x2 : list R) :
  (length x1 <= n_qubits)%nat -> (length x2 <= n_qubits)%nat ->
  kernel n_qubits x1 x2
  = Some (Rprod n_qubits (fun i => cos (nth i x1 0 - nth i x2 0))).
Proof.
  intros H1 H2. unfold kernel, AngleEmbedding. rewrite length_seq.
  apply Nat.leb_le in H1, H2. rewrite H1, H2. f_equal.
  unfold expval, observables.
  rewrite basis_zero_product, execute_app, !execute_product, inner_product.
  rewrite (Cprod_real _ _ (fun i => cos (nth i x1 0 - nth i x2 0))); [reflexivity |].
  intros i Hi. rewrite observables_qubits. cbn [Nat.leb andb]. rewrite Nat.add_0_l.
  apply Nat.ltb_lt in Hi. rewrite Hi. apply Nat.ltb_lt in Hi.
  rewrite embedded_qubit by exact Hi.
  apply one_wire_expectation.
Qed.


Lemma Rprod_ext n : forall (f g : nat -> R),
  (forall i, (i < n)%nat -> f i = g i) -> Rprod n f = Rprod n g.
Proof.
  induction n as [| m IH]; intros f g H; [reflexivity |].
  cbn [Rprod]. rewrite (H O) by lia. f_equal. apply IH. intros i Hi. apply H. lia.
Qed.

Lemma Rprod_bound n : forall (f : nat -> R),
  (forall i, (i < n)%nat -> -1 <= f i <= 1) -> -1 <= Rprod n f <= 1.
Proof.
  induction n as [| m IH]; intros f H; cbn [Rprod]; [lra |].
  pose proof (H O ltac:(lia)) as H0.
  pose proof (IH (fun i => f (S i)) ltac:(intros i Hi; apply H; lia)) as Hr.
  nra.
Qed.

Lemma Rprod_one n : forall (f : nat -> R),
  (forall i, (i < n)%nat -> f i = 1) -> Rprod n f = 1.
Proof.
  induction n as [| m IH]; intros f H; cbn [Rprod]; [reflexivity |].
  rewrite (H O) by lia. rewrite IH; [ring |]. intros i Hi. apply H. lia.
Qed.

(** X10. The kernel fails (the [ValueError] of [AngleEmbedding]) exactly
    when one of the two inputs has more features than there are qubits. *)
Theorem kernel_error (n_qubits : nat) (x1 x2 : list R) :
  kernel n_qubits x1 x2 = None <->
  (n_qubits < length x1)%nat \/ (n_qubits < length x2)%nat.
Proof.
  unfold kernel, AngleEmbedding. rewrite length_seq.
  destruct (length x1 <=? n_qubits)%nat eqn:E1;
    destruct (length x2 <=? n_qubits)%nat eqn:E2;
    try apply Nat.leb_le in E1; try apply Nat.leb_le in E2;
    try apply Nat.leb_gt in E1; try apply Nat.leb_gt in E2;
    split; intros H; try discriminate; try reflexivity; try lia; auto.
Qed.



Lemma all_some_map {T U : Type} (f : T -> option U) (g : T -> U) (l : list T) :
  (forall x, In x l -> f x = Some (g x)) ->
  all_some (map f l) = Some (map g l).
Proof.
  induction l as [| x l IH]; intros H; [reflexivity |].
  cbn [map all_some]. rewrite (H x (or_introl eq_refl)).
  rewrite IH; [reflexivity |]. intros y Hy. apply H. now right.
Qed.

Lemma kernel_matrix_value (n_qubits : nat) (A B : list (list R)) :
  Forall (fun a => (length a <= n_qubits)%nat) A ->
  Forall (fun b => (length b <= n_qubits)%nat) B ->
  kernel_matrix n_qubits A B
  = Some (map (fun a => map (fun b =>
            Rprod n_qubits (fun i => cos (nth i a 0 - nth i b 0))) B) A).
Proof.
  intros HA HB. unfold kernel_matrix.
  rewrite List.Forall_forall in HA, HB.
  apply all_some_map. intros a Ha.
  apply all_some_map. intros b Hb.
  apply kernel_closed_form; auto.
Qed.

Lemma entry_map (g : list R -> list R -> R) (A B : list (list R)) i j a b :
  nth_error A i = Some a -> nth_error B j = Some b ->
  entry (map (fun a => map (fun b => g a b) B) A) i j = Some (g a b).
Proof.
  intros Ha Hb. unfold entry. rewrite nth_error_map, Ha. cbn.
  rewrite nth_error_map, Hb. reflexivity.
Qed.

Lemma all_some_none {T U : Type} (f : T -> option U) (l : list T) :
  all_some (map f l) = None <-> exists x, In x l /\ f x = None.
Proof.
  induction l as [| x l IH]; cbn [map all_some].
  - split; [discriminate | intros [x [[] _]]].
  - destruct (f x) as [u |] eqn:E.
    + destruct (all_some (map f l)) as [us |] eqn:E'.
      * split; [discriminate |]. intros [y [[<- | Hy] Hf]]; [congruence |].
        assert (H : @None (list U) = None) by reflexivity.
        destruct IH as [_ IH]. specialize (IH (ex_intro _ y (conj Hy Hf))). discriminate.
      * split; [| reflexivity]. intros _.
        destruct IH as [IH _]. destruct (IH eq_refl) as [y [Hy Hf]].
        exists y. split; [now right | exact Hf].
    + split; [| reflexivity]. intros _. exists x. split; [now left | exact E].
Qed.

(** X13. [kernel_matrix(A, B)] fails exactly when some pair of a row of
    [A] and a row of [B] makes the kernel fail (so not when [B] is empty);
    otherwise it has one row per element of [A] and its entry [(i, j)] is
    the kernel of the [i]-th element of [A] and the [j]-th of [B]. *)
Theorem kernel_matrix_entries (n_qubits : nat) (A B : list (list R)) :
  (kernel_matrix n_qubits A B = None <->
   exists a b, In a A /\ In b B /\
     ((n_qubits < length a)%nat \/ (n_qubits < length b)%nat)) /\
  forall K, kernel_matrix n_qubits A B = Some K ->
    length K = length A /\
    forall i j a b, nth_error A i = Some a -> nth_error B j = Some b ->
      entry K i j = kernel n_qubits a b.
Proof.
  split.
  - unfold kernel_matrix. rewrite all_some_none. split.
    + intros [a [Ha Hn]]. apply all_some_none in Hn. destruct Hn as [b [Hb Hk]].
      exists a, b. repeat split; auto. now apply kernel_error.
    + intros [a [b [Ha [Hb Hl]]]]. exists a. split; [exact Ha |].
      apply all_some_none. exists b. split; [exact Hb |]. now apply kernel_error.
  - intros K HK.
    assert (HA : forall a b, In a A -> In b B ->
                 (length a <= n_qubits)%nat /\ (length b <= n_qubits)%nat).
    { intros a b Ha Hb.
      destruct (le_lt_dec (length a) n_qubits) as [H1 | H1];
        [destruct (le_lt_dec (length b) n_qubits) as [H2 | H2]; [auto |] |];
        exfalso;
        assert (Hn : kernel_matrix n_qubits A B = None)
          by (unfold kernel_matrix; apply all_some_none; exists a; split; [exact Ha |];
              apply all_some_none; exists b; split; [exact Hb |];
              apply kernel_error; auto);
        congruence. }
    assert (HKv : kernel_matrix n_qubits A B
                  = Some (map (fun a => map (fun b =>
                      Rprod n_qubits (fun i => cos (nth i a 0 - nth i b 0))) B) A)).
    { unfold kernel_matrix. apply all_some_map. intros a Ha.
      apply all_some_map. intros b Hb. destruct (HA a b Ha Hb).
      apply kernel_closed_form; auto. }
    rewrite HKv in HK. injection HK as <-. split; [apply length_map |].
    intros i j a b Ha Hb.
    rewrite (entry_map (fun a b => Rprod n_qubits (fun i => cos (nth i a 0 - nth i b 0)))
               A B i j a b Ha Hb).
    symmetry. destruct (HA a b (nth_error_In _ _ Ha) (nth_error_In _ _ Hb)).
    apply kernel_closed_form; auto.
Qed.


Lemma kernel_closed_form_witness :
  (length [1; 2] <= 2)%nat /\ (length [3] <= 2)%nat /\
  kernel 2 [1; 2] [3] = Some (Rprod 2 (fun i => cos (nth i [1; 2] 0 - nth i [3] 0))).
Proof.
  split; [simpl; lia |]. split; [simpl; lia |].
  apply (kernel_closed_form 2 [1; 2] [3]); simpl; lia.
Defined.

Lemma kernel_error_witness :
  ((1 < length [1; 2])%nat \/ (1 < length [0])%nat) /\ kernel 1 [1; 2] [0] = None.
Proof.
  split; [left; simpl; lia |].
  apply (proj2 (kernel_error 1 [1; 2] [0])). left; simpl; lia.
Defined.


Lemma kernel_matrix_entries_witness :
  kernel_matrix 1 [[PI]] [[0]] = Some [[-1]] /\
  length [[-1]] = length [[PI]] /\
  entry [[-1]] 0 0 = kernel 1 [PI] [0].
Proof.
  assert (H : kernel_matrix 1 [[PI]] [[0]] = Some [[-1]]).
  { unfold kernel_matrix. cbn [map all_some]. now rewrite kernel_opposite_points. }
  split; [exact H |].
  destruct (proj2 (kernel_matrix_entries 1 [[PI]] [[0]]) [[-1]] H) as [Hl He].
  split; [exact Hl |]. apply (He 0%nat 0%nat [PI] [0]); reflexivity.
Defined.


End QuantumKernelFacts.

(** ** The rules of the run invariant *)


Module RulesFacts.
Import Script Script.Rules.

Section Invariant.
Context {L : library}.
Variable api : string -> bool.
Variable deps : key -> list key.

Lemma ok_keys_app (a b : list event) : ok_keys (a ++ b) = ok_keys a ++ ok_keys b.
Proof. unfold ok_keys. now rewrite List.filter_app, map_app. Qed.

Lemma closed_from_mono (evs : list event) :
  forall S S', incl S S' -> closed_from deps S evs -> closed_from deps S' evs.
Proof.
  induction evs as [| e evs IH]; intros S S' Hi H; simpl in *; [exact I |].
  destruct H as [Hd Hc]. split.
  - eapply incl_tran; eauto.
  - eapply IH; [| exact Hc]. destruct (succeeded e); [| exact Hi].
    apply incl_cons; [apply in_eq | apply incl_tl, Hi].
Qed.

Lemma closed_from_app (evs1 evs2 : list event) :
  forall S S1,
    closed_from deps S evs1 ->
    incl S1 (S ++ ok_keys evs1) ->
    closed_from deps S1 evs2 ->
    closed_from deps S (evs1 ++ evs2).
Proof.
  induction evs1 as [| e evs1 IH]; intros S S1 H1 Hi H2; simpl in *.
  - eapply closed_from_mono; [| exact H2]. now rewrite app_nil_r in Hi.
  - destruct H1 as [Hd Hc]. split; [exact Hd |].
    eapply IH; [exact Hc | | exact H2].
    intros k Hk. apply Hi in Hk. apply in_app_or in Hk. apply in_or_app.
    destruct Hk as [Hk | Hk].
    + left. destruct (succeeded e); [right |]; exact Hk.
    + unfold ok_keys in Hk. cbn [List.filter] in Hk.
      destruct (succeeded e); cbn [map] in Hk.
      * destruct Hk as [<- | Hk]; [left; left; reflexivity | right; exact Hk].
      * right; exact Hk.
Qed.

Lemma propagated_app (o : option exn) (evs1 evs2 : list event) :
  Forall (fun e => succeeded e = true) evs1 ->
  propagated o evs2 -> propagated o (evs1 ++ evs2).
Proof.
  intros H1 H2. destruct o as [x |]; simpl in *.
  - destruct H2 as [evs0 [e [-> [Hr H0]]]].
    exists (evs1 ++ evs0), e. rewrite app_assoc. repeat split; auto.
    apply Forall_app; auto.
  - apply Forall_app; auto.
Qed.

Lemma rspec_ret {A : Type} (S : list key) (W : list string) (a : A) :
  rspec api deps S S W (ret a).
Proof.
  intros w. split; [reflexivity |]. exists []. simpl.
  rewrite app_nil_r. repeat split; auto. intros _. apply incl_appl, incl_refl.
Qed.

Lemma rspec_bind {A B : Type} (S S1 S2 : list key) (W : list string)
  (m : cmd A) (f : A -> cmd B) :
  rspec api deps S S1 W m ->
  (forall a, rspec api deps S1 S2 W (f a)) ->
  rspec api deps S S2 W (bind m f).
Proof.
  intros Hm Hf w. unfold bind. specialize (Hm w).
  destruct (m w) as [[a | e] w1]; simpl in Hm.
  - specialize (Hf a w1). destruct (f a w1) as [r w2]; simpl in *.
    destruct Hm as [Hg1 [evs1 [Hl1 [Ha1 [Hp1 [Hc1 Hs1]]]]]].
    destruct Hf as [Hg2 [evs2 [Hl2 [Ha2 [Hp2 [Hc2 Hs2]]]]]].
    split.
    + intros x Hx. rewrite Hg2, Hg1; auto.
    + exists (evs1 ++ evs2). rewrite Hl2, Hl1, app_assoc.
      split; [reflexivity |]. split; [apply Forall_app; auto |].
      split; [apply propagated_app; auto |].
      split; [eapply closed_from_app; eauto |].
      intros Ho. specialize (Hs1 eq_refl). specialize (Hs2 Ho).
      rewrite ok_keys_app, app_assoc.
      intros k Hk. apply Hs2 in Hk. apply in_app_or in Hk.
      apply in_or_app. destruct Hk as [Hk | Hk]; [left; auto | right; auto].
  - simpl. destruct Hm as [Hg1 [evs1 [Hl1 [Ha1 [Hp1 [Hc1 Hs1]]]]]].
    split; [exact Hg1 |]. exists evs1. repeat split; auto. discriminate.
Qed.

Lemma rspec_weaken {A : Type} (S S0 S1 S2 : list key) (W : list string) (p : cmd A) :
  rspec api deps S S1 W p -> incl S S0 -> incl S2 S1 ->
  rspec api deps S0 S2 W p.
Proof.
  intros Hp Hi0 Hi2 w. destruct (Hp w) as [Hg [evs [Hl [Ha [Hpr [Hc Hs]]]]]].
  split; [exact Hg |]. exists evs. repeat split; auto.
  - eapply closed_from_mono; eauto.
  - intros Ho k Hk. apply Hi2, (Hs Ho) in Hk. apply in_app_or in Hk.
    apply in_or_app. destruct Hk; auto.
Qed.

Lemma rspec_perform {T : Type} (S : list key) (W : list string)
  (line : nat) (name : string) (args : list value)
  (h : libstate -> result exn T * libstate) :
  api name = true ->
  incl (deps (name, line)) S ->
  rspec api deps S ((name, line) :: S) W (perform line name args h).
Proof.
  intros Hapi Hd w. unfold perform.
  destruct (h (lib_state w)) as [r s]. simpl.
  split; [reflexivity |].
  exists [mk_event line name args (outcome r)].
  split; [reflexivity |]. split; [repeat constructor; exact Hapi |].
  split.
  - destruct r as [t | e]; simpl.
    + repeat constructor.
    + exists [], (mk_event line name args (Some e)). repeat split; auto.
  - split; [simpl; auto |].
    intros Ho. destruct r; [| discriminate]. unfold ok_keys. simpl.
    intros k [<- | Hk]; apply in_or_app; [right; now left | now left].
Qed.

Lemma rspec_get_global (S : list key) (W : list string) (line : nat) (x : string) :
  api "NameError" = true ->
  deps ("NameError"%string, line) = [] ->
  rspec api deps S S W (get_global line x).
Proof.
  intros Hapi Hd w. unfold get_global. destruct (globals w !! x) as [v |]; simpl.
  - split; [reflexivity |]. exists []. rewrite app_nil_r. repeat split; auto.
    + constructor.
    + intros _. apply incl_appl, incl_refl.
  - split; [reflexivity |]. eexists. split; [reflexivity |].
    split; [repeat constructor; exact Hapi |].
    split; [eexists [], _; repeat split; eauto |].
    split; [| discriminate]. simpl. unfold ev_key. simpl. rewrite Hd.
    split; [apply incl_nil_l | exact I].
Qed.

Lemma rspec_set_global (S : list key) (W : list string) (x : string) (v : value) :
  In x W -> rspec api deps S S W (set_global x v).
Proof.
  intros Hx w. unfold set_global. simpl. split.
  - intros y Hy. apply lookup_insert_ne. intros ->. contradiction.
  - exists []. rewrite app_nil_r. repeat split; auto.
    + constructor.
    + intros _. apply incl_appl, incl_refl.
Qed.

Lemma rspec_for_each {A : Type} (S : list key) (W : list string)
  (xs : list A) (body : A -> cmd unit) :
  (forall x, rspec api deps S S W (body x)) ->
  rspec api deps S S W (for_each xs body).
Proof.
  intros Hb. induction xs as [| x xs IH]; simpl.
  - apply rspec_ret.
  - eapply rspec_bind; [apply Hb | intros _; exact IH].
Qed.

Lemma rspec_mapM {A B : Type} (S : list key) (W : list string)
  (f : A -> cmd B) (xs : list A) :
  (forall x, rspec api deps S S W (f x)) ->
  rspec api deps S S W (mapM f xs).
Proof.
  intros Hf. induction xs as [| x xs IH]; simpl.
  - apply rspec_ret.
  - eapply rspec_bind; [apply Hf | intros y].
    eapply rspec_bind; [exact IH | intros ys; apply rspec_ret].
Qed.

Lemma rspec_foldM {A B : Type} (S : list key) (W : list string)
  (f : B -> A -> cmd B) (xs : list A) :
  (forall acc x, rspec api deps S S W (f acc x)) ->
  forall acc, rspec api deps S S W (foldM f xs acc).
Proof.
  intros Hf. induction xs as [| x xs IH]; intros acc; simpl.
  - apply rspec_ret.
  - eapply rspec_bind; [apply Hf | intros acc'; apply IH].
Qed.

Lemma rspec_globals_mono {A : Type} (S S' : list key) (W W' : list string) (p : cmd A) :
  incl W W' -> rspec api deps S S' W p -> rspec api deps S S' W' p.
Proof.
  intros Hi Hp w. destruct (Hp w) as [Hg H]. split; [| exact H].
  intros x Hx. apply Hg. intros Hin. apply Hx, Hi, Hin.
Qed.

Lemma rspec_perform_same {T : Type} (S : list key) (W : list string)
  (line : nat) (name : string) (args : list value)
  (h : libstate -> result exn T * libstate) (D : list key) :
  api name = true ->
  deps (name, line) = D ->
  incl D S ->
  rspec api deps S S W (perform line name args h).
Proof.
  intros Ha <- Hd. eapply rspec_weaken.
  - apply rspec_perform; eauto.
  - apply incl_refl.
  - apply incl_tl, incl_refl.
Qed.

Lemma rspec_perform_grow {T : Type} (S : list key) (W : list string)
  (line : nat) (name : string) (args : list value)
  (h : libstate -> result exn T * libstate) (D : list key) :
  api name = true ->
  deps (name, line) = D ->
  incl D S ->
  rspec api deps S ((name, line) :: S) W (perform line name args h).
Proof. intros Ha <- Hd. apply rspec_perform; auto. Qed.

Lemma events_of_app {A : Type} (p : cmd A) (w : world) (evs : list event) :
  log (snd (p w)) = log w ++ evs -> events_of p w = evs.
Proof.
  intros H. unfold events_of. rewrite H.
  rewrite skipn_app, Nat.sub_diag, skipn_all. reflexivity.
Qed.

(** What the invariant says about the events of a run. *)
Lemma rspec_events {A : Type} (S S' : list key) (W : list string) (p : cmd A) :
  rspec api deps S S' W p ->
  forall w,
    Forall (fun e => api (ev_name e) = true) (events_of p w) /\
    propagated (outcome (fst (p w))) (events_of p w) /\
    closed_from deps S (events_of p w) /\
    (outcome (fst (p w)) = None -> incl S' (S ++ ok_keys (events_of p w))).
Proof.
  intros Hp w. destruct (Hp w) as [_ [evs [Hl H]]].
  rewrite (events_of_app p w evs Hl). exact H.
Qed.

Lemma rspec_frame {A : Type} (S S' : list key) (W : list string) (p : cmd A) :
  rspec api deps S S' W p ->
  forall w x, ~ In x W -> globals (snd (p w)) !! x = globals w !! x.
Proof. intros Hp w. destruct (Hp w) as [Hg _]. exact Hg. Qed.

Lemma rspec_exceptions {A : Type} (S S' : list key) (W : list string) (p : cmd A) :
  rspec api deps S S' W p -> exceptions_are_the_libraries p.
Proof. intros Hp w. apply (rspec_events S S' W p Hp w). Qed.

Lemma ok_keys_in (evs : list event) (k : key) :
  In k (ok_keys evs) -> exists e, In e evs /\ ev_key e = k /\ succeeded e = true.
Proof.
  unfold ok_keys. intros H. apply in_map_iff in H. destruct H as [e [Hk He]].
  apply List.filter_In in He. destruct He as [He Hs]. exists e. auto.
Qed.

Lemma closed_from_order (evs : list event) :
  forall S pre e post d,
    closed_from deps S evs ->
    evs = pre ++ e :: post ->
    In d (deps (ev_key e)) ->
    In d S \/ exists e', In e' pre /\ ev_key e' = d /\ succeeded e' = true.
Proof.
  induction evs as [| e0 evs IH]; intros S pre e post d Hc He Hd.
  - destruct pre; discriminate.
  - destruct Hc as [Hdeps Hc]. destruct pre as [| p0 pre]; simpl in He.
    + injection He as <- <-. left. apply Hdeps, Hd.
    + injection He as <- ->.
      destruct (IH _ pre e post d Hc eq_refl Hd) as [Hin | [e' [Hin [Hk Hs]]]].
      * destruct (succeeded e0) eqn:E.
        -- destruct Hin as [<- | Hin]; [| left; exact Hin].
           right. exists e0. split; [now left | auto].
        -- left; exact Hin.
      * right. exists e'. split; [now right | auto].
Qed.

Lemma closed_from_in_order (evs : list event) :
  closed_from deps [] evs -> in_dependency_order deps evs.
Proof.
  intros Hc pre e post d He Hd.
  destruct (closed_from_order evs [] pre e post d Hc He Hd) as [[] | H]. exact H.
Qed.

End Invariant.

(** Membership and inclusion goals over explicit lists of program points. *)
Ltac solve_in := solve [repeat (first [assumption | left; reflexivity | right])].

Ltac solve_incl :=
  solve [ apply incl_nil_l
        | repeat (apply incl_cons; [solve_in |]); apply incl_nil_l ].

(** A delegated operation, recording its program point as completed when
    [grow] is [true]; the side conditions are evaluated. *)
Ltac rperform grow :=
  lazymatch grow with
  | true => eapply rspec_perform_grow
  | false => eapply rspec_perform_same
  end; [vm_compute; reflexivity | vm_compute; reflexivity | solve_incl].

Ltac head_of t :=
  lazymatch t with
  | ?f _ => head_of f
  | _ => t
  end.

(** One step of the walk through a program: the rule of its outermost
    construct.  [T] lists the program points recorded as completed; [known]
    applies the lemmas already proved for the functions the program calls;
    any other definition is unfolded. *)
Ltac rstep T known :=
  lazymatch goal with
  | |- forall _, _ => intro
  | |- rspec _ _ _ _ _ (bind _ _) => eapply rspec_bind
  | |- rspec _ _ _ _ _ (ret _) => apply rspec_ret
  | |- rspec _ _ _ _ _ (call ?l ?n _) =>
      let b := eval vm_compute in (existsb (fun k => String.eqb (fst k) n && Nat.eqb (snd k) l) T) in
      rperform b
  | |- rspec _ _ _ _ _ (iterate _ _) => rperform false
  | |- rspec _ _ _ _ _ (truth _ _) => rperform false
  | |- rspec _ _ _ _ _ (unpack2 _ _) => rperform false
  | |- rspec _ _ _ _ _ (unpack4 _ _) => rperform false
  | |- rspec _ _ _ _ _ (get_global _ _) =>
      apply rspec_get_global; [vm_compute; reflexivity | vm_compute; reflexivity]
  | |- rspec _ _ _ _ _ (set_global _ _) => apply rspec_set_global; solve_in
  | |- rspec _ _ _ _ _ (for_each _ _) => apply rspec_for_each
  | |- rspec _ _ _ _ _ (mapM _ _) => apply rspec_mapM
  | |- rspec _ _ _ _ _ (foldM _ _ _) => apply rspec_foldM
  | |- rspec _ _ _ _ _ (if ?b then _ else _) => destruct b
  | |- rspec _ _ _ _ _ (match ?x with _ => _ end) => destruct x
  | |- rspec _ _ _ _ _ ?p =>
      first [ known | let h := head_of p in unfold h ]
  end.

Ltac rwalk T known := repeat (rstep T known).


(** ** Bound names *)

Section BoundRules.
Context {L : library}.

Lemma all_in_mem (R B : list string) (x : string) :
  all_in R B = true -> mem x R = true -> mem x B = true.
Proof.
  unfold all_in, mem at 1. intros Ha Hx.
  apply existsb_exists in Hx. destruct Hx as [y [Hy Heq]].
  apply String.eqb_eq in Heq. subst y.
  rewrite forallb_forall in Ha. apply Ha, Hy.
Qed.

Lemma bound_incl (B B' : list string) (w : world) :
  all_in B' B = true -> bound B w -> bound B' w.
Proof. intros Hi Hb x Hx. apply Hb. eapply all_in_mem; eauto. Qed.

Lemma mem_cons (x y : string) (B : list string) :
  mem y (x :: B) = String.eqb y x || mem y B.
Proof. reflexivity. Qed.

Lemma all_in_refl (B : list string) : all_in B B = true.
Proof.
  unfold all_in. apply forallb_forall. intros y Hy. unfold mem.
  apply existsb_exists. exists y. split; [exact Hy | apply String.eqb_refl].
Qed.

Lemma all_in_tl (x : string) (B : list string) : all_in B (x :: B) = true.
Proof.
  unfold all_in. apply forallb_forall. intros y Hy. rewrite mem_cons.
  apply orb_true_iff. right. unfold mem. apply existsb_exists.
  exists y. split; [exact Hy | apply String.eqb_refl].
Qed.

Lemma binds_ret {A : Type} (B : list string) (a : A) : binds B B (ret a).
Proof.
  intros w Hb. simpl. split; [auto |]. split; [| auto].
  exists []. rewrite app_nil_r. split; [reflexivity | constructor].
Qed.

Lemma binds_bind {A C : Type} (B B1 B2 : list string) (m : cmd A) (f : A -> cmd C) :
  binds B B1 m -> (forall a, binds B1 B2 (f a)) -> binds B B2 (bind m f).
Proof.
  intros Hm Hf w Hb. unfold bind. destruct (Hm w Hb) as [Hg [[evs1 [Hl1 Hn1]] Hp]].
  destruct (m w) as [[a | e] w1]; simpl in *.
  - destruct (Hf a w1 (Hp eq_refl)) as [Hg2 [[evs2 [Hl2 Hn2]] Hp2]].
    destruct (f a w1) as [r w2]; simpl in *.
    split; [intros x Hx; apply Hg2, Hg, Hx |]. split; [| exact Hp2].
    exists (evs1 ++ evs2). rewrite Hl2, Hl1, app_assoc. split; [reflexivity |].
    apply Forall_app; auto.
  - split; [exact Hg |]. split; [| discriminate]. exists evs1. auto.
Qed.

Lemma binds_post {A : Type} (B B1 B2 : list string) (p : cmd A) :
  binds B B1 p -> all_in B2 B1 = true -> binds B B2 p.
Proof.
  intros Hp Hi w Hb. destruct (Hp w Hb) as [Hg [He Hq]].
  split; [exact Hg |]. split; [exact He |].
  intros Ho. eapply bound_incl; eauto.
Qed.

Lemma binds_perform {T : Type} (B : list string)
  (line : nat) (name : string) (args : list value)
  (h : libstate -> result exn T * libstate) :
  String.eqb name "NameError" = false ->
  binds B B (perform line name args h).
Proof.
  intros Hn w Hb. unfold perform. destruct (h (lib_state w)) as [r s]. simpl.
  split; [auto |]. split; [| intros _; exact Hb].
  eexists. split; [reflexivity |]. repeat constructor. exact Hn.
Qed.

Lemma binds_get_global (B : list string) (line : nat) (x : string) :
  mem x B = true -> binds B B (get_global line x).
Proof.
  intros Hx w Hb. unfold get_global. destruct (Hb x Hx) as [v Hv]. rewrite Hv. simpl.
  split; [auto |]. split; [| intros _; exact Hb].
  exists []. rewrite app_nil_r. split; [reflexivity | constructor].
Qed.

Lemma binds_set_global (B : list string) (x : string) (v : value) :
  binds B (x :: B) (set_global x v).
Proof.
  intros w Hb. unfold set_global. simpl. split; [| split].
  - intros y Hy. destruct (decide (x = y)) as [-> | Hne].
    + rewrite lookup_insert_eq. eauto.
    + rewrite lookup_insert_ne by exact Hne. exact Hy.
  - exists []. rewrite app_nil_r. split; [reflexivity | constructor].
  - intros _ y Hy; simpl. destruct (decide (x = y)) as [-> | Hne].
    + rewrite lookup_insert_eq. eauto.
    + rewrite lookup_insert_ne by exact Hne. apply Hb.
      rewrite mem_cons in Hy. apply orb_true_iff in Hy. destruct Hy as [Hy | Hy]; [| exact Hy].
      apply String.eqb_eq in Hy. congruence.
Qed.

Lemma binds_for_each {A : Type} (B : list string) (xs : list A) (body : A -> cmd unit) :
  (forall x, binds B B (body x)) -> binds B B (for_each xs body).
Proof.
  intros Hb. induction xs as [| x xs IH]; simpl.
  - apply binds_ret.
  - eapply binds_bind; [apply Hb | intros _; exact IH].
Qed.

Lemma binds_mapM {A C : Type} (B : list string) (f : A -> cmd C) (xs : list A) :
  (forall x, binds B B (f x)) -> binds B B (mapM f xs).
Proof.
  intros Hf. induction xs as [| x xs IH]; simpl.
  - apply binds_ret.
  - eapply binds_bind; [apply Hf | intros y].
    eapply binds_bind; [exact IH | intros ys; apply binds_ret].
Qed.

Lemma binds_foldM {A C : Type} (B : list string) (f : C -> A -> cmd C) (xs : list A) :
  (forall acc x, binds B B (f acc x)) -> forall acc, binds B B (foldM f xs acc).
Proof.
  intros Hf. induction xs as [| x xs IH]; intros acc; simpl.
  - apply binds_ret.
  - eapply binds_bind; [apply Hf | intros acc'; apply IH].
Qed.

End BoundRules.

(** Membership goals are evaluated, or taken from the hypotheses when the
    list of bound names is a variable. *)
Ltac solve_mem := first [assumption | vm_compute; reflexivity].

Ltac solve_all_in :=
  first [ apply all_in_refl
        | apply all_in_tl
        | vm_compute; reflexivity
        | cbn [all_in forallb];
          repeat (apply andb_true_intro; split; [assumption |]); reflexivity ].

(** One step of the walk with the rules for bound names. *)
Ltac bstep known :=
  lazymatch goal with
  | |- forall _, _ => intro
  | |- all_in _ _ = true => solve_all_in
  | |- binds _ _ (bind _ _) => eapply binds_bind
  | |- binds _ _ (ret _) => apply binds_ret
  | |- binds _ _ (call _ _ _) => apply binds_perform; reflexivity
  | |- binds _ _ (iterate _ _) => apply binds_perform; reflexivity
  | |- binds _ _ (truth _ _) => apply binds_perform; reflexivity
  | |- binds _ _ (unpack2 _ _) => apply binds_perform; reflexivity
  | |- binds _ _ (unpack4 _ _) => apply binds_perform; reflexivity
  | |- binds _ _ (get_global _ _) => apply binds_get_global; solve_mem
  | |- binds _ _ (set_global _ _) => apply binds_set_global
  | |- binds _ _ (for_each _ _) => apply binds_for_each; intro; eapply binds_post
  | |- binds _ _ (mapM _ _) => apply binds_mapM; intro; eapply binds_post
  | |- binds _ _ (foldM _ _ _) => apply binds_foldM; intros ? ?; eapply binds_post
  | |- binds _ _ (if ?b then _ else _) => destruct b
  | |- binds _ _ (match ?x with _ => _ end) => destruct x
  | |- binds _ _ ?p => first [ known | let h := head_of p in unfold h ]
  end.

Ltac bwalk known := repeat (bstep known).

(** ** Normal runs, taken apart *)

Section Inversion.
Context {L : library}.

Lemma ret_ok {A : Type} (a b : A) (w w' : world) :
  ret a w = (Ok b, w') -> b = a /\ w' = w.
Proof. unfold ret. intros H. injection H as <- <-. auto. Qed.

Lemma bind_ok {A C : Type} (m : cmd A) (f : A -> cmd C) (w w' : world) (c : C) :
  bind m f w = (Ok c, w') ->
  exists a w1, m w = (Ok a, w1) /\ f a w1 = (Ok c, w').
Proof.
  unfold bind. destruct (m w) as [[a | e] w1]; [| discriminate].
  intros H. exists a, w1. auto.
Qed.

Lemma perform_ok {T : Type} (line : nat) (name : string) (args : list value)
  (h : libstate -> result exn T * libstate) (w w' : world) (t : T) :
  perform line name args h w = (Ok t, w') ->
  exists s', h (lib_state w) = (Ok t, s') /\
             w' = mk_world (globals w) s' (log w ++ [mk_event line name args None]).
Proof.
  unfold perform. destruct (h (lib_state w)) as [r s]. intros H.
  injection H as -> <-. exists s. auto.
Qed.

Lemma get_global_ok (line : nat) (x : string) (w w' : world) (v : value) :
  get_global line x w = (Ok v, w') -> globals w !! x = Some v /\ w' = w.
Proof.
  unfold get_global. destruct (globals w !! x); [| discriminate].
  intros H. injection H as <- <-. auto.
Qed.

Lemma set_global_ok (x : string) (v : value) (w w' : world) (u : unit) :
  set_global x v w = (Ok u, w') ->
  w' = mk_world (<[x := v]> (globals w)) (lib_state w) (log w).
Proof. unfold set_global. intros H. injection H as _ H. symmetry. exact H. Qed.

Lemma count_name_app (n : string) (a b : list event) :
  count_name n (a ++ b) = count_name n a + count_name n b.
Proof. unfold count_name. rewrite List.filter_app, length_app. reflexivity. Qed.

Lemma count_name_one (n : string) (e : event) :
  count_name n [e] = if String.eqb (ev_name e) n then 1 else 0.
Proof. unfold count_name. simpl. destruct (String.eqb (ev_name e) n); reflexivity. Qed.

Lemma ok_run {A : Type} (r : result exn A * world) (a : A) :
  fst r = Ok a -> r = (Ok a, snd r).
Proof. destruct r as [x w]. simpl. intros ->. reflexivity. Qed.

End Inversion.

(** Projections of an explicit world. *)
Ltac world_simpl :=
  repeat match goal with
  | H : context [lib_state (mk_world ?g ?s ?l)] |- _ =>
      change (lib_state (mk_world g s l)) with s in H
  | H : context [log (mk_world ?g ?s ?l)] |- _ =>
      change (log (mk_world g s l)) with l in H
  | H : context [globals (mk_world ?g ?s ?l)] |- _ =>
      change (globals (mk_world g s l)) with g in H
  | |- context [lib_state (mk_world ?g ?s ?l)] =>
      change (lib_state (mk_world g s l)) with s
  | |- context [log (mk_world ?g ?s ?l)] =>
      change (log (mk_world g s l)) with l
  | |- context [globals (mk_world ?g ?s ?l)] =>
      change (globals (mk_world g s l)) with g
  end.

(** One step of the inversion of a normal run [p w = (Ok a, w')]: the
    hypothesis is split along the outermost construct of [p]; loops are
    left for their own lemmas, [known] treats the functions that have
    one, any other definition is unfolded. *)
Ltac inv_step known :=
  match goal with
  | H : ?lhs = (Ok _, _) |- _ =>
      lazymatch lhs with
      | bind _ _ _ =>
          apply bind_ok in H; let a := fresh "a" in let w := fresh "w" in
          let H1 := fresh "R" in
          destruct H as (a & w & H1 & H); cbv beta in H
      | ret _ _ => apply ret_ok in H; destruct H as [? ?]; simplify_eq
      | get_global _ _ _ =>
          apply get_global_ok in H; let G := fresh "G" in destruct H as [G ?]; subst
      | set_global _ _ _ => apply set_global_ok in H; subst
      | perform _ _ _ _ _ =>
          apply perform_ok in H; let s := fresh "s" in let P := fresh "P" in
          destruct H as (s & P & ?); subst; world_simpl
      | call _ _ _ _ => unfold call in H
      | iterate _ _ _ => unfold iterate in H
      | truth _ _ _ => unfold truth in H
      | unpack2 _ _ _ => unfold unpack2 in H
      | unpack4 _ _ _ => unfold unpack4 in H
      | (if ?b then _ else _) _ => destruct b
      | (match ?x with _ => _ end) _ => destruct x
      | lib_call _ _ _ => fail
      | lib_iter _ _ => fail
      | lib_truth _ _ => fail
      | lib_unpack2 _ _ => fail
      | lib_unpack4 _ _ => fail
      | for_each _ _ _ => fail
      | mapM _ _ _ => fail
      | foldM _ _ _ _ => fail
      | _ => first [ known H | let h := head_of lhs in unfold h in H ]
      end
  end.

Ltac run_inv known := repeat (inv_step known).

(** Counting goals over explicit logs. *)
Ltac count_done :=
  world_simpl;
  repeat rewrite count_name_app in *;
  repeat rewrite count_name_one in *;
  cbn [ev_name] in *;
  repeat match goal with
  | |- context [String.eqb ?a ?b] =>
      let v := eval vm_compute in (String.eqb a b) in
      change (String.eqb a b) with v
  | H : context [String.eqb ?a ?b] |- _ =>
      let v := eval vm_compute in (String.eqb a b) in
      change (String.eqb a b) with v in H
  end;
  cbv iota in *;
  try lia.

Section Loops.
Context {L : library}.

Lemma for_each_count {A : Type} (n : string) (c : nat) (body : A -> cmd unit) :
  (forall x w u w', body x w = (Ok u, w') ->
     count_name n (log w') = count_name n (log w) + c) ->
  forall xs w u w', for_each xs body w = (Ok u, w') ->
    count_name n (log w') = count_name n (log w) + length xs * c.
Proof.
  intros Hb. induction xs as [| x xs IH]; intros w u w' H; simpl in H.
  - apply ret_ok in H. destruct H as [_ ->]. simpl. lia.
  - apply bind_ok in H. destruct H as (a & w1 & H1 & H2).
    apply Hb in H1. apply IH in H2. simpl. lia.
Qed.

Lemma mapM_count {A C : Type} (n : string) (c : nat) (f : A -> cmd C) :
  (forall x w y w', f x w = (Ok y, w') ->
     count_name n (log w') = count_name n (log w) + c) ->
  forall xs w ys w', mapM f xs w = (Ok ys, w') ->
    length ys = length xs /\
    count_name n (log w') = count_name n (log w) + length xs * c.
Proof.
  intros Hf. induction xs as [| x xs IH]; intros w ys w' H; simpl in H.
  - apply ret_ok in H. destruct H as [-> ->]. simpl. lia.
  - apply bind_ok in H. destruct H as (y & w1 & H1 & H2).
    apply bind_ok in H2. destruct H2 as (ys' & w2 & H2 & H3).
    apply ret_ok in H3. destruct H3 as [-> ->].
    apply Hf in H1. apply IH in H2. simpl. lia.
Qed.

Lemma foldM_count {A C : Type} (n : string) (c d : nat) (m : C -> nat)
  (f : C -> A -> cmd C) :
  (forall acc x w acc' w', f acc x w = (Ok acc', w') ->
     m acc' = m acc + d /\
     count_name n (log w') = count_name n (log w) + c) ->
  forall xs acc w acc' w', foldM f xs acc w = (Ok acc', w') ->
    m acc' = m acc + length xs * d /\
    count_name n (log w') = count_name n (log w) + length xs * c.
Proof.
  intros Hf. induction xs as [| x xs IH]; intros acc w acc' w' H; simpl in H.
  - apply ret_ok in H. destruct H as [-> ->]. simpl. lia.
  - apply bind_ok in H. destruct H as (a & w1 & H1 & H2).
    apply Hf in H1. apply IH in H2. simpl. lia.
Qed.

Lemma foldM_invariant {A C : Type} (P : C -> Prop) (f : C -> A -> cmd C) :
  (forall acc x w acc' w', P acc -> f acc x w = (Ok acc', w') -> P acc') ->
  forall xs acc w acc' w', P acc -> foldM f xs acc w = (Ok acc', w') -> P acc'.
Proof.
  intros Hf. induction xs as [| x xs IH]; intros acc w acc' w' HP H; simpl in H.
  - apply ret_ok in H. destruct H as [-> _]. exact HP.
  - apply bind_ok in H. destruct H as (a & w1 & H1 & H2).
    eapply IH; [| exact H2]. eapply Hf; eauto.
Qed.

End Loops.

Ltac iterated HA :=
  match goal with
  | P : lib_iter _ _ = (Ok _, _) |- _ => apply HA in P; subst
  end.

Ltac counted n c :=
  match goal with
  | R : mapM _ _ _ = (Ok _, _) |- _ =>
      eapply (mapM_count n c) in R; [destruct R as [? R] |]
  | R : for_each _ _ _ = (Ok _, _) |- _ => eapply (for_each_count n c) in R
  end.

Lemma toy_iterates (xs : list value) : @iterates_to Toy.toy_library (VList xs) xs.
Proof. intros s r s' H. injection H as <- _. reflexivity. Qed.

(** The value a run on the stand-in library returns, and the fact that it
    returns it. *)
Ltac result_of run :=
  let r := eval vm_compute in (fst run) in
  lazymatch r with
  | Ok ?a => exists a
  end.

Ltac ran := apply ok_run; vm_compute; reflexivity.

End RulesFacts.

(** ** The GBS script *)

Module GbsFacts.
Import Script Script.Rules Script.Gbs RulesFacts.
Local Open Scope string_scope.

Section Program.
Context {L : library}.

Ltac gbs_walk known :=
  rwalk [("qml.device", 211); ("qml.qnode", 213); ("QNode.execute", 213)] known.

Lemma gbs_circuit_body_run (S : list key) (W : list string) :
  rspec (in_api gbs_api) gbs_deps S S W gbs_circuit_body.
Proof. unfold gbs_circuit_body. gbs_walk fail. Qed.

Lemma gbs_circuit_run (S : list key) (W : list string) (line : nat) :
  In ("qml.qnode", 213) S ->
  rspec (in_api gbs_api) gbs_deps S (("QNode.execute", 213) :: S) W (gbs_circuit line).
Proof.
  intros HS. unfold gbs_circuit. gbs_walk ltac:(apply gbs_circuit_body_run).
Qed.

Ltac gbs_known :=
  idtac; lazymatch goal with
  | |- rspec _ _ _ _ _ gbs_circuit_body => apply gbs_circuit_body_run
  | |- rspec _ _ _ _ _ (gbs_circuit _) => apply gbs_circuit_run; solve_in
  end.

Lemma gbs_head_run :
  rspec (in_api gbs_api) gbs_deps []
    [("QNode.execute", 213); ("qml.qnode", 213); ("qml.device", 211)]
    gbs_head_globals gbs_head.
Proof. unfold gbs_head, gbs_setup, probs_value. gbs_walk gbs_known. Qed.

Lemma gbs_tail_run (S : list key) :
  In ("QNode.execute", 213) S ->
  rspec (in_api gbs_api) gbs_deps S S gbs_tail_globals gbs_tail.
Proof. intros HS. unfold gbs_tail. gbs_walk gbs_known. Qed.

Lemma gbs_script_run :
  rspec (in_api gbs_api) gbs_deps []
    [("QNode.execute", 213); ("qml.qnode", 213); ("qml.device", 211)]
    (gbs_head_globals ++ gbs_tail_globals) gbs_script.
Proof.
  unfold gbs_script. eapply rspec_bind.
  - eapply rspec_globals_mono; [| apply gbs_head_run]. apply incl_appl, incl_refl.
  - intros _. eapply rspec_globals_mono; [| apply gbs_tail_run; solve_in].
    apply incl_appr, incl_refl.
Qed.

Lemma gbs_head_binds_probs (w w1 : world) :
  gbs_head w = (Ok tt, w1) -> is_Some (globals w1 !! "probs").
Proof.
  unfold gbs_head, bind. intros H.
  destruct (gbs_setup w) as [[[] | e] w0]; [| discriminate].
  destruct (probs_value w0) as [[v | e] w2]; [| discriminate].
  unfold set_global in H. injection H as <-. simpl.
  rewrite lookup_insert_eq. eauto.
Qed.


Local Open Scope list_scope.

Lemma gbs_circuit_body_binds (B : list string) :
  mem "n_wires" B = true -> mem "U" B = true -> binds B B gbs_circuit_body.
Proof. intros H1 H2. bwalk fail. Qed.

Ltac gbs_bknown :=
  idtac; lazymatch goal with
  | |- binds _ _ gbs_circuit_body => apply gbs_circuit_body_binds; solve_mem
  end.

Lemma gbs_script_binds : binds [] gbs_bound_names gbs_script.
Proof. eapply binds_post; [bwalk gbs_bknown | solve_all_in]. Qed.

(** X15. The GBS script never reads a module-level name before binding it:
    started in any world and with any behaviour of the libraries, its run
    logs no [NameError], and when it ends normally [U], [n_wires],
    [cutoff], [dev], [gbs_circuit], [probs], [measure_states] and [B] are
    all bound. *)
Theorem gbs_script_names_bound (w : world) :
  Forall (fun e => is_name_error e = false) (events_of gbs_script w) /\
  (outcome (fst (gbs_script w)) = None ->
   bound gbs_bound_names (snd (gbs_script w))).
Proof.
  destruct (gbs_script_binds w) as [_ [[evs [Hl Hn]] Hb]].
  - intros x Hx. discriminate.
  - rewrite (events_of_app _ _ _ Hl). split; assumption.
Qed.

Lemma for_each_squeezing (idx : list value) :
  forall w u w',
    for_each idx (fun i =>
      bind (call 217 "qml.Squeezing" [VFloat 1; VFloat 0; wires i]) (fun _ => ret tt)) w
      = (Ok u, w') ->
    globals w' = globals w /\
    log w' = log w ++ map (fun i => mk_event 217 "qml.Squeezing"
                                      [VFloat 1; VFloat 0; wires i] None) idx.
Proof.
  induction idx as [| i idx IH]; intros w u w' H; simpl in H.
  - apply ret_ok in H. destruct H as [_ ->]. simpl. rewrite app_nil_r. auto.
  - apply bind_ok in H. destruct H as (a & w1 & H1 & H2).
    apply IH in H2. destruct H2 as [Hg Hl]. rewrite Hg, Hl. clear IH Hg Hl.
    run_inv ltac:(fun _ => fail). world_simpl.
    split; [reflexivity |]. rewrite <- app_assoc. reflexivity.
Qed.


End Program.


Lemma gbs_script_names_bound_witness :
  bound gbs_bound_names (snd (@gbs_script Toy.toy_library Toy.start)).
Proof.
  apply (proj2 (@gbs_script_names_bound Toy.toy_library Toy.start)).
  vm_compute; reflexivity.
Defined.


End GbsFacts.

(** ** The kernel-based training script *)

Module KernelTrainingFacts.
Import Script Script.Rules Script.KernelTraining RulesFacts.
Local Open Scope string_scope.

Section Program.
Context {L : library}.

Ltac kernel_walk known :=
  rwalk [("qml.device", 204); ("qml.qnode", 208);
         ("qml.device", 318); ("qml.qnode", 321)] known.

Local Abbreviation spec := (rspec (in_api kernel_api) kernel_deps).

Lemma kernel_body_run S W x1 x2 : spec S S W (kernel_body x1 x2).
Proof. unfold kernel_body. kernel_walk fail. Qed.

Lemma kernel_run_grow S W qnode x1 x2 :
  In ("qml.qnode", 208) S ->
  spec S (("QNode.execute", 208) :: S) W (kernel qnode x1 x2).
Proof.
  intros HS. unfold kernel.
  rwalk [("QNode.execute", 208)] ltac:(apply kernel_body_run).
Qed.

Lemma kernel_run S W qnode x1 x2 :
  In ("qml.qnode", 208) S -> spec S S W (kernel qnode x1 x2).
Proof.
  intros HS. eapply rspec_weaken; [apply kernel_run_grow; exact HS | |].
  - apply incl_refl.
  - apply incl_tl, incl_refl.
Qed.

Lemma kernel_matrix_run S W A B :
  In ("qml.qnode", 208) S -> spec S S W (kernel_matrix A B).
Proof.
  intros HS. unfold kernel_matrix. kernel_walk ltac:(apply kernel_run; solve_in).
Qed.

Lemma circuit_evals_kernel_run S W n_data split :
  spec S S W (circuit_evals_kernel n_data split).
Proof. unfold circuit_evals_kernel. kernel_walk fail. Qed.

Lemma quantum_model_body_run S W x params : spec S S W (quantum_model_body x params).
Proof. unfold quantum_model_body. kernel_walk fail. Qed.

Lemma quantum_model_run S W qnode x params :
  In ("qml.qnode", 321) S -> spec S S W (quantum_model qnode x params).
Proof.
  intros HS. unfold quantum_model. kernel_walk ltac:(apply quantum_model_body_run).
Qed.

Lemma quantum_model_plus_bias_run S W x params bias :
  In ("qml.qnode", 321) S -> spec S S W (quantum_model_plus_bias x params bias).
Proof.
  intros HS. unfold quantum_model_plus_bias.
  kernel_walk ltac:(apply quantum_model_run; solve_in).
Qed.

Lemma hinge_loss_run S W predictions targets :
  spec S S W (hinge_loss predictions targets).
Proof. unfold hinge_loss. kernel_walk fail. Qed.

Lemma closure_run S W opt pt bt Xb yb i lh :
  In ("qml.qnode", 321) S -> spec S S W (closure opt pt bt Xb yb i lh).
Proof.
  intros HS. unfold closure.
  kernel_walk ltac:(idtac; lazymatch goal with
                    | |- rspec _ _ _ _ _ (quantum_model_plus_bias _ _ _) =>
                        apply quantum_model_plus_bias_run; solve_in
                    | |- rspec _ _ _ _ _ (hinge_loss _ _) => apply hinge_loss_run
                    end).
Qed.

Lemma quantum_model_train_run S W n_layers steps batch_size :
  In ("qml.qnode", 321) S -> spec S S W (quantum_model_train n_layers steps batch_size).
Proof.
  intros HS. unfold quantum_model_train.
  kernel_walk ltac:(apply closure_run; solve_in).
Qed.

Lemma quantum_model_predict_run S W X_pred tp tb :
  In ("qml.qnode", 321) S -> spec S S W (quantum_model_predict X_pred tp tb).
Proof.
  intros HS. unfold quantum_model_predict.
  kernel_walk ltac:(apply quantum_model_plus_bias_run; solve_in).
Qed.

Lemma circuit_evals_variational_run S W a b c d e f :
  spec S S W (circuit_evals_variational a b c d e f).
Proof. unfold circuit_evals_variational. kernel_walk fail. Qed.

Lemma model_evals_nn_run S W a b c d e :
  spec S S W (model_evals_nn a b c d e).
Proof. unfold model_evals_nn. kernel_walk fail. Qed.

Ltac kernel_known :=
  idtac; lazymatch goal with
  | |- rspec _ _ _ _ _ (kernel _ _ _) => apply kernel_run_grow; solve_in
  | |- rspec _ _ _ _ _ (kernel_matrix _ _) => apply kernel_matrix_run; solve_in
  | |- rspec _ _ _ _ _ (circuit_evals_kernel _ _) => apply circuit_evals_kernel_run
  | |- rspec _ _ _ _ _ (quantum_model_train _ _ _) =>
      apply quantum_model_train_run; solve_in
  | |- rspec _ _ _ _ _ (quantum_model_predict _ _ _) =>
      apply quantum_model_predict_run; solve_in
  | |- rspec _ _ _ _ _ (circuit_evals_variational _ _ _ _ _ _) =>
      apply circuit_evals_variational_run
  | |- rspec _ _ _ _ _ (model_evals_nn _ _ _ _ _) => apply model_evals_nn_run
  end.

Lemma kernel_part_run :
  spec [] [("QNode.execute", 208); ("qml.qnode", 208); ("qml.device", 204)]
    kernel_globals kernel_part.
Proof. unfold kernel_part. kernel_walk kernel_known. Qed.

Lemma variational_part_run S :
  In ("QNode.execute", 208) S ->
  spec S (("qml.qnode", 321) :: ("qml.device", 318) :: S) kernel_globals variational_part.
Proof. intros HS. unfold variational_part. kernel_walk kernel_known. Qed.

Lemma scaling_step_run S M : spec S S kernel_globals (scaling_step M).
Proof. unfold scaling_step. kernel_walk kernel_known. Qed.

Lemma scaling_part_run S : spec S S kernel_globals scaling_part.
Proof.
  unfold scaling_part.
  kernel_walk ltac:(idtac; lazymatch goal with
                    | |- rspec _ _ _ _ _ (scaling_step _) => apply scaling_step_run
                    | _ => kernel_known
                    end).
Qed.

Lemma kernel_script_run :
  spec []
    [("qml.qnode", 321); ("qml.device", 318);
     ("QNode.execute", 208); ("qml.qnode", 208); ("qml.device", 204)]
    kernel_globals kernel_script.
Proof.
  unfold kernel_script.
  eapply rspec_bind; [apply kernel_part_run | intros _].
  eapply rspec_bind; [apply variational_part_run; solve_in | intros _].
  apply scaling_part_run.
Qed.

Local Open Scope list_scope.

Lemma kernel_binds B qnode x1 x2 :
  mem "n_qubits" B = true -> mem "observables" B = true -> binds B B (kernel qnode x1 x2).
Proof. intros. bwalk fail. Qed.

Lemma kernel_matrix_binds B a b :
  mem "n_qubits" B = true -> mem "observables" B = true -> mem "kernel" B = true ->
  binds B B (kernel_matrix a b).
Proof.
  intros.
  bwalk ltac:(idtac; lazymatch goal with
              | |- binds _ _ (kernel _ _ _) => apply kernel_binds; solve_mem end).
Qed.

Lemma ceil_three_quarters_binds B line n : binds B B (ceil_three_quarters line n).
Proof. bwalk fail. Qed.

Lemma circuit_evals_kernel_binds B n s : binds B B (circuit_evals_kernel n s).
Proof. bwalk fail. Qed.

Lemma circuit_evals_variational_binds B a b c d e f :
  binds B B (circuit_evals_variational a b c d e f).
Proof. bwalk fail. Qed.

Lemma model_evals_nn_binds B a b c d e : binds B B (model_evals_nn a b c d e).
Proof. bwalk fail. Qed.

Lemma quantum_model_plus_bias_binds B x p b :
  mem "n_qubits" B = true -> mem "quantum_model" B = true ->
  binds B B (quantum_model_plus_bias x p b).
Proof. intros. bwalk fail. Qed.

Lemma hinge_loss_binds B p t : binds B B (hinge_loss p t).
Proof. bwalk fail. Qed.

Ltac kb1 :=
  idtac; lazymatch goal with
  | |- binds _ _ (quantum_model_plus_bias _ _ _) =>
      apply quantum_model_plus_bias_binds; solve_mem
  | |- binds _ _ (hinge_loss _ _) => apply hinge_loss_binds
  end.

Lemma closure_binds B opt pt bt Xb yb i lh :
  mem "n_qubits" B = true -> mem "quantum_model" B = true ->
  mem "quantum_model_plus_bias" B = true -> mem "hinge_loss" B = true ->
  binds B B (closure opt pt bt Xb yb i lh).
Proof. intros. bwalk kb1. Qed.

Lemma quantum_model_train_binds B n_layers steps batch_size :
  mem "n_qubits" B = true -> mem "quantum_model" B = true ->
  mem "quantum_model_plus_bias" B = true -> mem "hinge_loss" B = true ->
  mem "X_train" B = true -> mem "y_train" B = true ->
  binds B B (quantum_model_train n_layers steps batch_size).
Proof.
  intros.
  bwalk ltac:(idtac; lazymatch goal with
              | |- binds _ _ (closure _ _ _ _ _ _ _) => apply closure_binds; solve_mem end).
Qed.

Lemma quantum_model_predict_binds B X tp tb :
  mem "n_qubits" B = true -> mem "quantum_model" B = true -> mem "quantum_model_plus_bias" B = true ->
  binds B B (quantum_model_predict X tp tb).
Proof. intros. bwalk kb1. Qed.

Lemma append_global_binds B line x item :
  mem x B = true -> mem item B = true -> binds B B (append_global line x item).
Proof.
  intros. unfold append_global.
  eapply binds_bind; [apply binds_get_global; assumption | intros l].
  eapply binds_bind; [apply binds_get_global; assumption | intros v].
  destruct l; try (bwalk fail; fail).
  eapply binds_post; [apply binds_set_global | apply all_in_tl].
Qed.

Ltac kernel_bknown :=
  idtac; lazymatch goal with
  | |- binds _ _ (kernel _ _ _) => apply kernel_binds; solve_mem
  | |- binds _ _ (kernel_matrix _ _) => apply kernel_matrix_binds; solve_mem
  | |- binds _ _ (circuit_evals_kernel _ _) => apply circuit_evals_kernel_binds
  | |- binds _ _ (circuit_evals_variational _ _ _ _ _ _) =>
      apply circuit_evals_variational_binds
  | |- binds _ _ (model_evals_nn _ _ _ _ _) => apply model_evals_nn_binds
  | |- binds _ _ (quantum_model_train _ _ _) => apply quantum_model_train_binds; solve_mem
  | |- binds _ _ (quantum_model_predict _ _ _) =>
      apply quantum_model_predict_binds; solve_mem
  | |- binds _ _ (append_global _ _ _) => apply append_global_binds; solve_mem
  end.

Lemma kernel_script_binds : binds [] kernel_bound_names kernel_script.
Proof. eapply binds_post; [bwalk kernel_bknown | vm_compute; reflexivity]. Qed.

(** X16. The kernel-training script never reads a module-level name before
    binding it, also inside the functions it defines, which read their
    globals when they are called: started in any world and with any
    behaviour of the libraries, its run logs no [NameError], and when it
    ends normally every global the script binds is bound, apart from the
    names bound only in the loop of lines 563-581. *)
Theorem kernel_script_names_bound (w : world) :
  Forall (fun e => is_name_error e = false) (events_of kernel_script w) /\
  (outcome (fst (kernel_script w)) = None ->
   bound kernel_bound_names (snd (kernel_script w))).
Proof.
  destruct (kernel_script_binds w) as [_ [[evs [Hl Hn]] Hb]].
  - intros x Hx. discriminate.
  - rewrite (events_of_app _ _ _ Hl). split; assumption.
Qed.

Lemma kernel_executes_once (qnode x1 x2 : value) (w w' : world) (v : value) :
  kernel qnode x1 x2 w = (Ok v, w') ->
  count_name "QNode.execute" (log w') = count_name "QNode.execute" (log w) + 1.
Proof.
  intros H. run_inv ltac:(fun _ => fail). count_done.
Qed.

(** X17. [kernel_matrix(A, B)] executes the kernel circuit once for every
    pair of a row of [A] and a row of [B]: when iterating [A] yields
    [rows] and iterating [B] yields [cols], a call that returns has added
    [length rows * length cols] executions of a QNode to the log. *)
Theorem kernel_matrix_executions (A B : value) (rows cols : list value)
  (w w' : world) (K : value) :
  iterates_to A rows -> iterates_to B cols ->
  kernel_matrix A B w = (Ok K, w') ->
  count_name "QNode.execute" (log w')
    = count_name "QNode.execute" (log w) + length rows * length cols.
Proof.
  intros HA HB H. unfold kernel_matrix in H.
  run_inv ltac:(fun _ => fail).
  iterated HA. counted "QNode.execute" (length cols).
  - count_done.
  - clear - HB. intros a w y w' H. run_inv ltac:(fun _ => fail).
    iterated HB. counted "QNode.execute" 1.
    + count_done.
    + clear. intros b w y w' H. run_inv ltac:(fun H => apply kernel_executes_once in H).
      lia.
Qed.

Lemma quantum_model_plus_bias_executes_once (x p b : value) (w w' : world) (v : value) :
  quantum_model_plus_bias x p b w = (Ok v, w') ->
  count_name "QNode.execute" (log w') = count_name "QNode.execute" (log w) + 1.
Proof. intros H. run_inv ltac:(fun _ => fail). count_done. Qed.

Lemma quantum_model_plus_bias_no_step (x p b : value) (w w' : world) (v : value) :
  quantum_model_plus_bias x p b w = (Ok v, w') ->
  count_name ".step" (log w') = count_name ".step" (log w) + 0.
Proof. intros H. run_inv ltac:(fun _ => fail). count_done. Qed.

Lemma quantum_model_plus_bias_no_backward (x p b : value) (w w' : world) (v : value) :
  quantum_model_plus_bias x p b w = (Ok v, w') ->
  count_name ".backward" (log w') = count_name ".backward" (log w) + 0.
Proof. intros H. run_inv ltac:(fun _ => fail). count_done. Qed.

Lemma closure_records_one_loss (opt pt bt Xb yb i : value) (lh : list value)
  (w w' : world) (cl : value * list value) :
  closure opt pt bt Xb yb i lh w = (Ok cl, w') ->
  length (snd cl) = length lh + 1 /\
  count_name ".backward" (log w') = count_name ".backward" (log w) + 1 /\
  count_name ".step" (log w') = count_name ".step" (log w).
Proof.
  intros H. unfold closure in H.
  run_inv ltac:(fun _ => fail);
    (split; [cbn [snd]; rewrite length_app; simpl; lia |]);
    match goal with
    | R : mapM _ _ _ = (Ok _, _) |- _ =>
        pose proof R as R';
        eapply (mapM_count ".backward" 0) in R;
        [ eapply (mapM_count ".step" 0) in R';
          [ destruct R as [_ R]; destruct R' as [_ R']; split; count_done
          | clear; intros x u y u' H;
            run_inv ltac:(fun H => apply quantum_model_plus_bias_no_step in H); lia ]
        | clear; intros x u y u' H;
          run_inv ltac:(fun H => apply quantum_model_plus_bias_no_backward in H); lia ]
    end.
Qed.

(** X18. [quantum_model_train] records one loss per optimisation step: when
    it returns, the length of the returned [loss_history] is the number of
    calls of [opt.step] it made, and the number of backward passes. *)
Theorem quantum_model_train_loss_history (n_layers steps batch_size : value)
  (w w' : world) (params bias : value) (loss_history : list value) :
  quantum_model_train n_layers steps batch_size w
    = (Ok (params, bias, loss_history), w') ->
  count_name ".step" (log w') = count_name ".step" (log w) + length loss_history /\
  count_name ".backward" (log w') = count_name ".backward" (log w) + length loss_history.
Proof.
  intros H. unfold quantum_model_train in H.
  run_inv ltac:(fun _ => fail).
  match goal with
  | R : foldM _ _ _ _ = (Ok _, _) |- _ =>
      pose proof R as R';
      eapply (foldM_count ".step" 1 1 (@length value)) in R;
      [ eapply (foldM_count ".backward" 1 1 (@length value)) in R';
        [ destruct R as [Hl R]; destruct R' as [_ R']; simpl in Hl; split; count_done |]
      |]
  end.
  - clear. intros acc x u acc' u' H.
    run_inv ltac:(fun H => apply closure_records_one_loss in H).
    match goal with
    | H : _ /\ _ /\ _ |- _ => destruct H as (Hl & Hb & Hs)
    end.
    split; [exact Hl | count_done].
  - clear. intros acc x u acc' u' H.
    run_inv ltac:(fun H => apply closure_records_one_loss in H).
    match goal with
    | H : _ /\ _ /\ _ |- _ => destruct H as (Hl & Hb & Hs)
    end.
    split; [exact Hl | count_done].
Qed.

(** X19. [quantum_model_predict] returns one label per sample, each label
    is the integer 1 or -1, and it executes the circuit once per sample:
    when iterating [X_pred] yields [xs] and the call returns [p], then [p]
    has the length of [xs], holds only 1 and -1, and the run has added
    [length xs] executions of a QNode to the log. *)
Theorem quantum_model_predict_run_labels (X_pred tp tb : value) (xs : list value)
  (w w' : world) (p : list value) :
  iterates_to X_pred xs ->
  quantum_model_predict X_pred tp tb w = (Ok p, w') ->
  length p = length xs /\
  Forall (fun v => v = VInt 1 \/ v = VInt (-1)) p /\
  count_name "QNode.execute" (log w')
    = count_name "QNode.execute" (log w) + length xs.
Proof.
  intros HX H. unfold quantum_model_predict in H.
  run_inv ltac:(fun _ => fail). iterated HX.
  match goal with
  | R : foldM _ _ _ _ = (Ok _, _) |- _ =>
      pose proof R as R';
      eapply (foldM_count "QNode.execute" 1 1 (@length value)) in R;
      [ eapply (foldM_invariant (Forall (fun v => v = VInt 1 \/ v = VInt (-1)))) in R';
        [ destruct R as [Hl R]; simpl in Hl; split; [lia |]; split; [exact R' | count_done]
        | | constructor ]
      |]
  end.
  - clear. intros acc x u acc' u' HP H.
    run_inv ltac:(fun H => apply quantum_model_plus_bias_executes_once in H);
      (apply Forall_app; split; [assumption |]);
      (constructor; [| constructor]);
      match goal with |- context [if ?b then _ else _] => destruct b end; auto.
  - clear. intros acc x u acc' u' H.
    run_inv ltac:(fun H => apply quantum_model_plus_bias_executes_once in H);
      (split; [rewrite length_app; simpl; lia | count_done]).
Qed.

Lemma append_global_frame (line : nat) (x item : string) (w w' : world) (u : unit) :
  append_global line x item w = (Ok u, w') ->
  forall y, y <> x -> globals w' !! y = globals w !! y.
Proof.
  intros H y Hy. unfold append_global in H.
  apply bind_ok in H. destruct H as (l & w1 & H1 & H).
  apply bind_ok in H. destruct H as (v & w2 & H2 & H).
  apply get_global_ok in H1. destruct H1 as [_ ->].
  apply get_global_ok in H2. destruct H2 as [_ ->].
  destruct l; run_inv ltac:(fun _ => fail); world_simpl; try reflexivity.
  apply lookup_insert_ne. congruence.
Qed.

Lemma circuit_evals_kernel_globals (n_data split : value) (w w' : world) (v : value) :
  circuit_evals_kernel n_data split w = (Ok v, w') -> globals w' = globals w.
Proof. intros H. run_inv ltac:(fun _ => fail). reflexivity. Qed.

(** X21. Each turn of the loop of lines 563-581 rebinds the module-level
    name [kernel], until then the QNode of line 208: when the turn for the
    item [M] has ended normally, [kernel] is bound to a value that
    [circuit_evals_kernel(M, 0.75)] returned, and [M] is bound to the
    item. *)
Theorem scaling_step_rebinds_kernel (M : value) (w w' : world) (u : unit) :
  scaling_step M w = (Ok u, w') ->
  exists (w1 w2 : world) (v : value),
    circuit_evals_kernel M (VFloat (75 # 100)) w1 = (Ok v, w2) /\
    globals w' !! "kernel" = Some v /\
    globals w' !! "M" = Some M.
Proof.
  intros H. unfold scaling_step in H.
  run_inv ltac:(fun H =>
    lazymatch type of H with
    | append_global _ _ _ _ = _ =>
        let F := fresh "F" in
        pose proof (append_global_frame _ _ _ _ _ _ H) as F; clear H
    | circuit_evals_kernel _ _ _ = _ =>
        apply (fun h => conj h (circuit_evals_kernel_globals _ _ _ _ _ h)) in H
    end).
  world_simpl.
  match goal with
  | K : circuit_evals_kernel ?n _ ?w1 = (Ok ?v, ?w2) /\ globals ?w2 = _,
    G : globals ?w1 !! "M" = Some ?n,
    F3 : forall y, y <> "nn_training" -> _,
    F2 : forall y, y <> "kernelbased_training" -> _,
    F1 : forall y, y <> "variational_training2" -> _,
    F0 : forall y, y <> "variational_training1" -> _ |- _ =>
      destruct K as [K Kg];
      rewrite F1 in G by discriminate; rewrite lookup_insert_ne in G by discriminate;
      rewrite F0 in G by discriminate; rewrite lookup_insert_ne in G by discriminate;
      rewrite lookup_insert_eq in G; injection G as <-;
      exists w1, w2, v; split; [exact K |];
      rewrite !F3 by discriminate; rewrite !lookup_insert_ne by discriminate;
      rewrite !F2 by discriminate; rewrite Kg; split;
      [ apply lookup_insert_eq |];
      rewrite lookup_insert_ne by discriminate;
      rewrite F1 by discriminate; rewrite lookup_insert_ne by discriminate;
      rewrite F0 by discriminate; rewrite lookup_insert_ne by discriminate;
      apply lookup_insert_eq
  end.
Qed.

End Program.
Lemma kernel_script_names_bound_witness :
  bound kernel_bound_names (snd (@kernel_script Toy.toy_library Toy.start)).
Proof.
  apply (proj2 (@kernel_script_names_bound Toy.toy_library Toy.start)).
  vm_compute; reflexivity.
Defined.

Lemma kernel_matrix_executions_witness :
  let A := VList [VList [VInt 1; VInt 2]; VList [VInt 3; VInt 4]] in
  let B := VList [VList [VInt 5; VInt 6]; VList [VInt 7; VInt 8]; VList [VInt 9; VInt 0]] in
  let run := @kernel_matrix Toy.toy_library A B Toy.two_qubits in
  exists K, run = (Ok K, snd run) /\
  count_name "QNode.execute" (log (snd run))
  = count_name "QNode.execute" (log Toy.two_qubits) + 2 * 3.
Proof.
  intros A B run. result_of run.
  split; [ran |].
  refine (kernel_matrix_executions A B _ _ Toy.two_qubits (snd run) _
            (toy_iterates _) (toy_iterates _) _).
  ran.
Defined.

Lemma quantum_model_train_loss_history_witness :
  let w := Toy.bind_all ["n_qubits"; "X_train"; "y_train"; "quantum_model";
                     "quantum_model_plus_bias"; "hinge_loss"] (VInt 2) in
  let run := @quantum_model_train Toy.toy_library (VInt 1) (VInt 3) (VInt 2) w in
  exists p b l1 l2 l3,
    run = (Ok (p, b, [l1; l2; l3]), snd run) /\
    count_name ".step" (log (snd run)) = count_name ".step" (log w) + 3.
Proof.
  intros w run.
  let r := eval vm_compute in (fst run) in
  lazymatch r with
  | Ok (?p, ?b, [?l1; ?l2; ?l3]) => exists p, b, l1, l2, l3
  end.
  split; [ran |].
  refine (proj1 (quantum_model_train_loss_history _ _ _ w (snd run) _ _ [_; _; _] _)).
  ran.
Defined.

Lemma quantum_model_predict_run_labels_witness :
  let w := Toy.bind_all ["n_qubits"; "quantum_model"; "quantum_model_plus_bias"] (VInt 2) in
  let X := [VList [VInt 1; VInt 2]; VList [VInt 3; VInt 4]; VList [VInt 5; VInt 6]] in
  let run := @quantum_model_predict Toy.toy_library (VList X) (VInt 0) (VInt 0) w in
  exists p, run = (Ok p, snd run) /\ length p = 3.
Proof.
  intros w X run. result_of run.
  split; [ran |].
  refine (proj1 (quantum_model_predict_run_labels (VList X) _ _ X w (snd run) _
                   (toy_iterates _) _)).
  ran.
Defined.

Lemma scaling_step_rebinds_kernel_witness :
  let w := Toy.bind_all ["kernel"; "circuit_evals_variational"; "circuit_evals_kernel";
                     "model_evals_nn"; "variational_training1"; "variational_training2";
                     "kernelbased_training"; "nn_training"] (VList []) in
  let run := @scaling_step Toy.toy_library (VInt 100) w in
  run = (Ok tt, snd run) /\ globals (snd run) !! "M" = Some (VInt 100).
Proof.
  intros w run.
  split; [ran |].
  destruct (scaling_step_rebinds_kernel (VInt 100) w (snd run) tt) as (w1 & w2 & v & H).
  - ran.
  - apply H.
Defined.

End KernelTrainingFacts.

(** ** Both scripts: order of the steps, exceptions, files *)

Module TutorialFacts.
Import Script Script.Rules RulesFacts.
Local Open Scope string_scope.
Local Open Scope list_scope.

Section Scripts.
Context {L : library}.

Lemma no_file_operation (names : list string) (n : string) :
  forallb (fun m => negb (in_api file_output_operations m)) names = true ->
  in_api names n = true -> writes_no_file names n = true.
Proof.
  intros Hall Hn. unfold writes_no_file. rewrite Hn. simpl.
  unfold in_api in Hn. apply existsb_exists in Hn. destruct Hn as [m [Hm He]].
  apply String.eqb_eq in He. subst m.
  rewrite forallb_forall in Hall. apply Hall, Hm.
Qed.

(** In every complete run of the kernel script a circuit is executed
    before the second device is configured. *)
Lemma kernel_script_second_pass (w : world) :
  outcome (fst (KernelTraining.kernel_script w)) = None ->
  exists pre e1 mid e2 post,
    events_of KernelTraining.kernel_script w = pre ++ e1 :: mid ++ e2 :: post /\
    ev_name e1 = "QNode.execute" /\ ev_name e2 = "qml.device".
Proof.
  intros Hend.
  destruct (rspec_events _ _ _ _ _ _ KernelTrainingFacts.kernel_script_run w)
    as [_ [_ [Hc Hs]]].
  specialize (Hs Hend).
  assert (Hdev : In ("qml.device", 318) (ok_keys (events_of KernelTraining.kernel_script w))).
  { apply (Hs ("qml.device", 318)). right; left; reflexivity. }
  apply ok_keys_in in Hdev. destruct Hdev as [e2 [Hin [Hk _]]].
  apply in_split in Hin. destruct Hin as [l1 [post Hev]].
  destruct (closed_from_in_order _ _ Hc l1 e2 post ("QNode.execute", 208) Hev)
    as [e1 [Hin1 [Hk1 _]]].
  { rewrite Hk. now left. }
  apply in_split in Hin1. destruct Hin1 as [pre [mid ->]].
  exists pre, e1, mid, e2, post. split.
  - rewrite Hev, <- app_assoc. reflexivity.
  - unfold ev_key in *. split; congruence.
Qed.


(** C7. Neither script raises or handles an exception of its own: when a
    run of a script, or a call of a function it defines, ends with an
    exception, that exception is the one raised by the last operation the
    run delegated to the interpreter or a library, and every operation
    before it had succeeded. *)
Theorem library_exceptions_reach_the_caller :
  exceptions_are_the_libraries Gbs.gbs_script /\
  exceptions_are_the_libraries KernelTraining.kernel_script /\
  (forall line, exceptions_are_the_libraries (Gbs.gbs_circuit line)) /\
  (forall qnode x1 x2,
      exceptions_are_the_libraries (KernelTraining.kernel qnode x1 x2)) /\
  (forall A B, exceptions_are_the_libraries (KernelTraining.kernel_matrix A B)) /\
  (forall n_data split,
      exceptions_are_the_libraries (KernelTraining.circuit_evals_kernel n_data split)) /\
  (forall qnode x params,
      exceptions_are_the_libraries (KernelTraining.quantum_model qnode x params)) /\
  (forall x params bias,
      exceptions_are_the_libraries (KernelTraining.quantum_model_plus_bias x params bias)) /\
  (forall predictions targets,
      exceptions_are_the_libraries (KernelTraining.hinge_loss predictions targets)) /\
  (forall n_layers steps batch_size,
      exceptions_are_the_libraries
        (KernelTraining.quantum_model_train n_layers steps batch_size)) /\
  (forall X_pred trained_params trained_bias,
      exceptions_are_the_libraries
        (KernelTraining.quantum_model_predict X_pred trained_params trained_bias)) /\
  (forall n_data n_params n_steps evals_per_derivative split batch_size,
      exceptions_are_the_libraries
        (KernelTraining.circuit_evals_variational
           n_data n_params n_steps evals_per_derivative split batch_size)) /\
  (forall n_data n_params n_steps split batch_size,
      exceptions_are_the_libraries
        (KernelTraining.model_evals_nn n_data n_params n_steps split batch_size)).
Proof.
  repeat split; intros.
  - eapply rspec_exceptions, GbsFacts.gbs_script_run.
  - eapply rspec_exceptions, KernelTrainingFacts.kernel_script_run.
  - eapply rspec_exceptions, (GbsFacts.gbs_circuit_run [("qml.qnode", 213)] []).
    now left.
  - eapply rspec_exceptions, (KernelTrainingFacts.kernel_run [("qml.qnode", 208)] []).
    now left.
  - eapply rspec_exceptions,
      (KernelTrainingFacts.kernel_matrix_run [("qml.qnode", 208)] []).
    now left.
  - eapply rspec_exceptions, (KernelTrainingFacts.circuit_evals_kernel_run [] []).
  - eapply rspec_exceptions,
      (KernelTrainingFacts.quantum_model_run [("qml.qnode", 321)] []).
    now left.
  - eapply rspec_exceptions,
      (KernelTrainingFacts.quantum_model_plus_bias_run [("qml.qnode", 321)] []).
    now left.
  - eapply rspec_exceptions, (KernelTrainingFacts.hinge_loss_run [] []).
  - eapply rspec_exceptions,
      (KernelTrainingFacts.quantum_model_train_run [("qml.qnode", 321)] []).
    now left.
  - eapply rspec_exceptions,
      (KernelTrainingFacts.quantum_model_predict_run [("qml.qnode", 321)] []).
    now left.
  - eapply rspec_exceptions, (KernelTrainingFacts.circuit_evals_variational_run [] []).
  - eapply rspec_exceptions, (KernelTrainingFacts.model_evals_nn_run [] []).
Qed.


End Scripts.

(** The first operations of the GBS script, as logged. *)
Example gbs_script_first_events :
  firstn 9 (Toy.trace (events_of (@Gbs.gbs_script Toy.toy_library) Toy.start))
  = [("import", 183); ("np.random.seed", 186); ("import", 189); ("import", 195);
     ("unitary_group.rvs", 198); ("print", 199); ("qml.device", 211);
     ("qml.qnode", 213); ("range", 216)]%nat.
Proof. vm_compute. reflexivity. Qed.

(** Malformed input: three features on two qubits.  The [ValueError] of
    [AngleEmbedding] ends the call of [kernel] and is what the caller
    gets. *)
Example kernel_rejects_long_features :
  let run :=
    @KernelTraining.kernel Toy.toy_library (VObj 0)
      (VList [VInt 1; VInt 2; VInt 3]) (VList [VInt 1; VInt 2]) Toy.two_qubits in
  outcome (fst run) = Some "ValueError" /\
  Toy.trace (log (snd run)) = [("range", 213); ("AngleEmbedding", 213)]%nat.
Proof. vm_compute. split; reflexivity. Qed.


End TutorialFacts.
